(** * The mailbox monitor of scripts/email_monitor.py

    A shallow embedding of [EmailMonitor] (scripts/email_monitor.py): the
    file-name sanitisation and the attachment gate of [process_new_email],
    the status reporter [update_status], the API hand-off
    [save_email_to_api], the session handling [connect] / [disconnect], the
    run loop of [start], and [stop] / [main].

    Conventions of the embedding.
    - A Python [str] is a [string]; a character is a code point below 256.
    - A message identifier (IMAP UID) is an [N]: UIDs are unsigned numbers.
    - Every call that leaves the process (HTTP, IMAP, the file system, the
      clock) asks a [World] for its outcome.  The world is indexed by the
      number of calls made so far, so that one world value describes one
      complete behaviour of the environment, and a statement quantified
      over all worlds covers every behaviour.
    - Each such call leaves an [event] in the trace of the computation,
      and so does each console line, kept without the values that the
      source formats into it.
    - The [while self.running] loop takes a number of iterations to run;
      when they are used up the computation stops where it stands with the
      result [Fuel], which no handler and no [finally] clause intercepts.
    - Signals are asynchronous and are not part of the run loop; the
      handler itself is embedded as [signal_handler]. *)

From Stdlib Require Import NArith ZArith List String Ascii Bool Lia.
From Stdlib Require Import DecimalString DecimalN.
From Stdlib Require Import Sorted.
From Stdlib Require Strings.Byte.
Import ListNotations.

Local Open Scope string_scope.

(** ** Strings *)

Module Str.

Definition chr (n : N) : ascii := ascii_of_N n.

Definition slash : ascii := chr 47.
Definition dot : ascii := chr 46.
Definition underscore : ascii := chr 95.

(** [s[i:]] for [0 <= i]. *)
Fixpoint drop (n : nat) (s : string) : string :=
  match n, s with
  | O, _ => s
  | S n', String _ s' => drop n' s'
  | S _, EmptyString => EmptyString
  end.

(** [s[:i]] for [0 <= i]. *)
Fixpoint take (n : nat) (s : string) : string :=
  match n, s with
  | S n', String c s' => String c (take n' s')
  | _, _ => EmptyString
  end.

(** [str.rfind] for a one-character needle: the highest index, or -1. *)
Fixpoint rfind (c : ascii) (s : string) : Z :=
  match s with
  | EmptyString => (-1)%Z
  | String a s' =>
      let r := rfind c s' in
      if (0 <=? r)%Z then (r + 1)%Z
      else if Ascii.eqb a c then 0%Z else (-1)%Z
  end.

Fixpoint map (f : ascii -> ascii) (s : string) : string :=
  match s with
  | EmptyString => EmptyString
  | String a s' => String (f a) (map f s')
  end.

Fixpoint existsb (p : ascii -> bool) (s : string) : bool :=
  match s with
  | EmptyString => false
  | String a s' => p a || existsb p s'
  end.

(** [str.lower] on code points below 256: A-Z, and the Latin-1 capitals
    U+00C0..U+00DE without the multiplication sign U+00D7. *)
Definition lower_char (a : ascii) : ascii :=
  let n := N_of_ascii a in
  if ((65 <=? n) && (n <=? 90))%N then chr (n + 32)
  else if ((192 <=? n) && (n <=? 222) && negb (n =? 215))%N then chr (n + 32)
  else a.

Definition lower (s : string) : string := map lower_char s.

(** [str.isspace] on code points below 256. *)
Definition is_space (a : ascii) : bool :=
  let n := N_of_ascii a in
  (((9 <=? n) && (n <=? 13)) || ((28 <=? n) && (n <=? 32))
   || (n =? 133) || (n =? 160))%N.

Fixpoint lstrip (s : string) : string :=
  match s with
  | EmptyString => EmptyString
  | String a s' => if is_space a then lstrip s' else s
  end.

Fixpoint rstrip (s : string) : string :=
  match s with
  | EmptyString => EmptyString
  | String a s' =>
      match rstrip s' with
      | EmptyString => if is_space a then EmptyString else String a EmptyString
      | r => String a r
      end
  end.

Definition strip (s : string) : string := rstrip (lstrip s).

(** [str(n)] for a non-negative integer. *)
Definition of_N (n : N) : string := NilZero.string_of_uint (N.to_uint n).

(** Python truthiness of a string. *)
Definition truthy (s : string) : bool :=
  match s with EmptyString => false | _ => true end.

End Str.

(** ** posixpath and re *)

(** [os.path.basename]: [i = p.rfind('/') + 1; return p[i:]]. *)
Definition basename (p : string) : string :=
  let i := (Str.rfind Str.slash p + 1)%Z in
  Str.drop (Z.to_nat i) p.

(** [genericpath._splitext] with [sep = '/'], no [altsep], [extsep = '.']:
    the extension starts at the last dot of the last path component,
    unless only dots precede it there. *)
Definition splitext (p : string) : string * string :=
  let sepIndex := Str.rfind Str.slash p in
  let dotIndex := Str.rfind Str.dot p in
  if (sepIndex <? dotIndex)%Z then
    let filenameIndex := Z.to_nat (sepIndex + 1) in
    let lead := Str.take (Z.to_nat dotIndex - filenameIndex) (Str.drop filenameIndex p) in
    if Str.existsb (fun a => negb (Ascii.eqb a Str.dot)) lead
    then (Str.take (Z.to_nat dotIndex) p, Str.drop (Z.to_nat dotIndex) p)
    else (p, EmptyString)
  else (p, EmptyString).

(** The character class of line 135: the code points of < > : | ? * and
    of the double quote (34). *)
Definition dangerous (a : ascii) : bool :=
  let n := N_of_ascii a in
  ((n =? 60) || (n =? 62) || (n =? 58) || (n =? 34)
   || (n =? 124) || (n =? 63) || (n =? 42))%N.

(** Line 135: [re.sub] of that class by an underscore. *)
Definition replace_dangerous (s : string) : string :=
  Str.map (fun a => if dangerous a then Str.underscore else a) s.

Definition starts_with_dot (s : string) : bool :=
  match s with
  | String a _ => Ascii.eqb a Str.dot
  | EmptyString => false
  end.

(** [re.sub(r'\.\.+', '.', s)]: every maximal run of two or more dots is
    replaced by one dot.  A dot that is followed by a dot is dropped, so of
    each run exactly its last dot is kept. *)
Fixpoint collapse_dots (s : string) : string :=
  match s with
  | EmptyString => EmptyString
  | String a s' =>
      if Ascii.eqb a Str.dot && starts_with_dot s'
      then collapse_dots s'
      else String a (collapse_dots s')
  end.

(** Two dots in a row somewhere in [s]. *)
Fixpoint has_dotdot (s : string) : bool :=
  match s with
  | EmptyString => false
  | String a s' => (Ascii.eqb a Str.dot && starts_with_dot s') || has_dotdot s'
  end.

(** Lines 134-136 of [process_new_email]. *)
Definition sanitize (filename : string) : string :=
  let safe_filename := basename filename in
  let safe_filename := replace_dangerous safe_filename in
  collapse_dots safe_filename.

Definition allowed_extensions : list string :=
  [".las"; ".txt"; ".csv"; ".pdf"; ".doc"; ".docx"; ".jpg"; ".jpeg"; ".png"].

(** [x in xs] for a list of strings. *)
Definition str_in (x : string) (xs : list string) : bool :=
  List.existsb (String.eqb x) xs.

(** Line 140. *)
Definition file_ext_of (safe_filename : string) : string :=
  Str.lower (snd (splitext safe_filename)).

(** The test of line 142. *)
Definition needs_fallback (safe_filename : string) : bool :=
  negb (Str.truthy safe_filename) || str_in safe_filename ["."; ".."].

(** [100 * 1024 * 1024]. *)
Definition size_limit : Z := 100 * 1024 * 1024.

(** ** Data *)

Definition uid := N.
Definition bytes := list Byte.byte.

(** The exception classes the handlers of the program tell apart; every
    one of them is a subclass of [Exception]. *)
Inductive error_class :=
| SSLError
| SSLEOFError
| ConnectionResetError
| TimeoutError
| SocketTimeout
| OtherError.

(** The tuple of line 288. *)
Definition is_transient (c : error_class) : bool :=
  match c with
  | OtherError => false
  | _ => true
  end.

(** A raised [Exception]: its class and [str(e)]. *)
Record error := mkError { err_class : error_class; err_text : string }.

Inductive exn :=
| Exception (e : error)
| SystemExit (code : Z).

(** [except Exception]. *)
Definition is_Exception (x : exn) : option error :=
  match x with Exception e => Some e | SystemExit _ => None end.

(** One part of [msg.walk()], as far as the program looks at it. *)
Record Part := mkPart {
  content_type : string;               (* get_content_type() *)
  part_filename : option string;       (* get_filename() *)
  part_payload : option bytes;         (* get_payload(decode=True) *)
  part_text : option string            (* ...decode("utf-8", errors="ignore"),
                                          None when that expression raises *)
}.

Record Message := mkMessage {
  msg_subject : option string;         (* the Subject header *)
  msg_from : option string;            (* the From header *)
  is_multipart : bool;
  walk : list Part;
  msg_text : option string             (* the decoded payload of a message
                                          that is not multipart *)
}.

(** The JSON body of [POST <api>/emails]. *)
Record Entry := mkEntry {
  e_uid : string;
  e_from : string;
  e_subject : string;
  e_body : string;
  e_attachments : list string;
  e_replyStatus : string
}.

(** The JSON body of [PUT <api>/emails/monitor/status]. *)
Record StatusData := mkStatus {
  isRunning : bool;
  lastError : option string;
  emailsProcessed : option string;
  lastStarted : option Z;
  lastStopped : option Z
}.

Inductive http_outcome :=
| Response (status_code : nat)
| HttpRaises (e : error).

Inductive fetch_outcome :=
| FetchRaises (e : error)              (* fetch, or the lookup in its result *)
| FetchNotBytes                        (* raw_email is not a bytes object *)
| FetchBytes (msg : Message).          (* email.message_from_bytes(raw_email) *)

Definition session := nat.

(** The attributes of an [EmailMonitor]. *)
Record Monitor := mkMonitor {
  running : bool;
  client : option session;
  last_uid : uid
}.

(** The monitor, the local [emails_processed] of [start], and the number of
    calls made to the world. *)
Record State := mkState {
  self : Monitor;
  emails_processed : nat;
  now : nat
}.

Record World := mkWorld {
  w_clock : nat -> Z;                           (* time.time() * 1000 *)
  w_put : nat -> http_outcome;                  (* requests.put *)
  w_post : nat -> http_outcome;                 (* requests.post *)
  w_open : nat -> option error;                 (* IMAPClient(...) *)
  w_login : nat -> option error;
  w_select : nat -> option error;
  w_logout : nat -> option error;
  w_noop : nat -> option error;
  w_search : nat -> error + list uid;
  w_fetch : nat -> uid -> fetch_outcome;
  w_write : nat -> option error                 (* open(filepath, "wb"), f.write *)
}.

Inductive event :=
| Print (line : string)
| HttpPut (data : StatusData) (r : http_outcome)
| HttpPost (entry : Entry) (r : http_outcome)
| ImapOpen (r : option error)
| ImapLogin (r : option error)
| ImapSelect (r : option error)
| ImapLogout (r : option error)
| ImapNoop (r : option error)
| ImapSearch (r : error + list uid)
| ImapFetch (u : uid) (r : fetch_outcome)
| FileWrite (path : string) (payload : bytes) (r : option error)
| Sleep (secs : nat).

(** ** The monad of the program *)

Inductive Res (A : Type) :=
| Ok (a : A)
| Raised (x : exn)
| Fuel.
Arguments Ok {A} a.
Arguments Raised {A} x.
Arguments Fuel {A}.

Record Out (A : Type) := mkOut {
  res : Res A;
  st : State;
  evs : list event
}.
Arguments mkOut {A} res st evs.
Arguments res {A} o.
Arguments st {A} o.
Arguments evs {A} o.

Definition M (A : Type) : Type := World -> State -> Out A.

Definition ret {A} (a : A) : M A := fun _ s => mkOut (Ok a) s [].

Definition bind {A B} (m : M A) (f : A -> M B) : M B :=
  fun w s =>
    let o := m w s in
    match res o with
    | Ok a => let o' := f a w (st o) in mkOut (res o') (st o') (evs o ++ evs o')
    | Raised x => mkOut (Raised x) (st o) (evs o)
    | Fuel => mkOut Fuel (st o) (evs o)
    end.

Declare Scope monitor_scope.
Delimit Scope monitor_scope with monitor.
Notation "x <- m ;; k" := (bind m (fun x => k))
  (at level 61, m at next level, right associativity) : monitor_scope.
Notation "m ;; k" := (bind m (fun _ => k))
  (at level 61, right associativity) : monitor_scope.
Local Open Scope monitor_scope.

Definition raise {A} (x : exn) : M A := fun _ s => mkOut (Raised x) s [].

Definition out_of_fuel {A} : M A := fun _ s => mkOut Fuel s [].

(** [try: body / except <classes> as e: handler e]; [sel] picks the
    exceptions the clause catches. *)
Definition try_except {A E} (body : M A) (sel : exn -> option E) (handler : E -> M A) : M A :=
  fun w s =>
    let o := body w s in
    match res o with
    | Raised x =>
        match sel x with
        | Some e => let o' := handler e w (st o) in
                    mkOut (res o') (st o') (evs o ++ evs o')
        | None => o
        end
    | _ => o
    end.

(** [try: body / finally: final]. *)
Definition try_finally {A} (body : M A) (final : M unit) : M A :=
  fun w s =>
    let o := body w s in
    match res o with
    | Fuel => o
    | r =>
        let o' := final w (st o) in
        match res o' with
        | Ok _ => mkOut r (st o') (evs o ++ evs o')
        | Raised x => mkOut (Raised x) (st o') (evs o ++ evs o')
        | Fuel => mkOut Fuel (st o') (evs o ++ evs o')
        end
    end.

Definition emit (e : event) : M unit := fun _ s => mkOut (Ok tt) s [e].

Definition print (line : string) : M unit := emit (Print line).

(** One call to the world: its outcome is the world's answer at the
    current count of calls. *)
Definition ask {A} (f : World -> nat -> A) : M A :=
  fun w s => mkOut (Ok (f w (now s))) (mkState (self s) (emails_processed s) (S (now s))) [].

Definition get_self : M Monitor := fun _ s => mkOut (Ok (self s)) s [].

Definition set_self (m : Monitor) : M unit :=
  fun _ s => mkOut (Ok tt) (mkState m (emails_processed s) (now s)) [].

Definition set_running (b : bool) : M unit :=
  m <- get_self ;; set_self (mkMonitor b (client m) (last_uid m)).

Definition set_client (c : option session) : M unit :=
  m <- get_self ;; set_self (mkMonitor (running m) c (last_uid m)).

Definition set_last_uid (u : uid) : M unit :=
  m <- get_self ;; set_self (mkMonitor (running m) (client m) u).

Definition get_emails_processed : M nat :=
  fun _ s => mkOut (Ok (emails_processed s)) s [].

Definition set_emails_processed (n : nat) : M unit :=
  fun _ s => mkOut (Ok tt) (mkState (self s) n (now s)) [].

Definition when (b : bool) (m : M unit) : M unit := if b then m else ret tt.

(** [raise] when the world's answer is an error. *)
Definition check (r : option error) : M unit :=
  match r with
  | Some e => raise (Exception e)
  | None => ret tt
  end.

Definition get_now : M nat := fun _ s => mkOut (Ok (now s)) s [].

Definition sys_exit {A} (code : Z) : M A := raise (SystemExit code).

Definition sleep (secs : nat) : M unit := emit (Sleep secs).

(** ** Calls to the outside *)

Definition requests_put (data : StatusData) : M nat :=
  r <- ask w_put ;;
  emit (HttpPut data r) ;;
  match r with
  | Response code => ret code
  | HttpRaises e => raise (Exception e)
  end.

Definition requests_post (entry : Entry) : M nat :=
  r <- ask w_post ;;
  emit (HttpPost entry r) ;;
  match r with
  | Response code => ret code
  | HttpRaises e => raise (Exception e)
  end.

Definition imap_search : M (list uid) :=
  r <- ask w_search ;;
  emit (ImapSearch r) ;;
  match r with
  | inl e => raise (Exception e)
  | inr all_messages => ret all_messages
  end.

Definition imap_noop : M unit :=
  r <- ask w_noop ;; emit (ImapNoop r) ;; check r.

(** Lines 262-268: the message, or [None] when [raw_email] is not a
    bytes object. *)
Definition imap_fetch (u : uid) : M (option Message) :=
  r <- ask (fun w t => w_fetch w t u) ;;
  emit (ImapFetch u r) ;;
  match r with
  | FetchRaises e => raise (Exception e)
  | FetchNotBytes => ret None
  | FetchBytes msg => ret (Some msg)
  end.

Definition write_file (filepath : string) (payload : bytes) : M unit :=
  r <- ask w_write ;; emit (FileWrite filepath payload r) ;; check r.

(** ** EmailMonitor *)

Definition opt_truthy (o : option string) : bool :=
  match o with
  | Some s => Str.truthy s
  | None => false
  end.

(** The dictionary built by lines 71-80, at the time [t]. *)
Definition status_data (is_running : bool) (error : option string)
    (emails_processed : option nat) (t : Z) : StatusData :=
  mkStatus is_running
    (if opt_truthy error then error else None)
    (option_map (fun n => Str.of_N (N.of_nat n)) emails_processed)
    (if is_running then Some t else None)
    (if is_running then None else Some t).

(** [update_status(is_running, error=None, emails_processed=None)]. *)
Definition update_status (is_running : bool) (error : option string)
    (emails_processed : option nat) : M unit :=
  try_except
    (t <- ask w_clock ;;
     let data := status_data is_running error emails_processed t in
     code <- requests_put data ;;
     if Nat.eqb code 200
     then print "Status updated"
     else print "Failed to update status")
    is_Exception
    (fun _ => print "Error updating status").

(** [save_email_to_api(entry)]. *)
Definition save_email_to_api (entry : Entry) : M bool :=
  try_except
    (code <- requests_post entry ;;
     if Nat.eqb code 201
     then print "Email saved to database" ;; ret true
     else print "Failed to save email" ;; ret false)
    is_Exception
    (fun _ => print "Error saving email to API" ;; ret false).

(** Lines 111-124: the text of the first text/plain part without a file
    name whose payload decodes. *)
Fixpoint first_plain_text (parts : list Part) : string :=
  match parts with
  | [] => EmptyString
  | part :: rest =>
      if String.eqb (content_type part) "text/plain"
         && negb (opt_truthy (part_filename part))
      then match part_text part with
           | Some t => t
           | None => first_plain_text rest
           end
      else first_plain_text rest
  end.

Definition extract_body (msg : Message) : string :=
  if is_multipart msg then first_plain_text (walk msg)
  else match msg_text msg with
       | Some t => t
       | None => EmptyString
       end.

Definition ATTACHMENTS_DIR : string := "data/email-attachments".

(** The body of the loop of line 129, for one part; [attachments] is the
    list built so far. *)
Definition attachment_step (part : Part) (attachments : list string) : M (list string) :=
  match part_filename part with
  | None => ret attachments
  | Some filename =>
      if negb (Str.truthy filename) then ret attachments
      else
        let safe_filename := sanitize filename in
        let file_ext := file_ext_of safe_filename in
        let safe_filename :=
          if needs_fallback safe_filename
          then "attachment_" ++ Str.of_N (N.of_nat (List.length attachments)) ++ ".bin"
          else safe_filename in
        if negb (str_in file_ext allowed_extensions) then
          print "Skipping attachment: file type not allowed" ;;
          ret attachments
        else
          match part_payload part with
          | None =>
              (* len(None) *)
              raise (Exception (mkError OtherError "object of type 'NoneType' has no len()"))
          | Some payload =>
              if (size_limit <? Z.of_nat (List.length payload))%Z then
                print "Skipping attachment: file too large" ;;
                ret attachments
              else
                let filepath := ATTACHMENTS_DIR ++ "/" ++ safe_filename in
                try_except
                  (write_file filepath payload ;;
                   print "Saved attachment" ;;
                   when (negb (String.eqb safe_filename filename))
                        (print "(sanitized)") ;;
                   ret (attachments ++ [safe_filename])%list)
                  is_Exception
                  (fun _ => print "Error saving attachment" ;; ret attachments)
          end
  end.

Fixpoint attachment_loop (parts : list Part) (attachments : list string) : M (list string) :=
  match parts with
  | [] => ret attachments
  | part :: rest =>
      attachments <- attachment_step part attachments ;;
      attachment_loop rest attachments
  end.

Definition opt_default (d : string) (o : option string) : string :=
  match o with
  | Some s => s
  | None => d
  end.

(** [process_new_email(uid, msg)]. *)
Definition process_new_email (u : uid) (msg : Message) : M bool :=
  try_except
    (let subject := opt_default "No Subject" (msg_subject msg) in
     let from_ := opt_default "Unknown" (msg_from msg) in
     let body := extract_body msg in
     attachments <-
       (if is_multipart msg then attachment_loop (walk msg) [] else ret []) ;;
     let entry :=
       mkEntry (Str.of_N u) from_ subject (Str.strip body) attachments "pending" in
     print "Processing Email" ;;
     ok <- save_email_to_api entry ;;
     if ok then ret true
     else print "Failed to save email UID" ;; ret false)
    is_Exception
    (fun _ => print "Error processing email" ;; ret false).

(** [connect()]. *)
Definition connect : M bool :=
  try_except
    (t <- get_now ;;
     r <- ask w_open ;; emit (ImapOpen r) ;; check r ;;
     set_client (Some t) ;;
     r <- ask w_login ;; emit (ImapLogin r) ;; check r ;;
     r <- ask w_select ;; emit (ImapSelect r) ;; check r ;;
     print "Connected" ;;
     ret true)
    is_Exception
    (fun e =>
       print "Connection failed" ;;
       update_status false (Some (err_text e)) None ;;
       ret false).

(** [disconnect()]. *)
Definition disconnect : M unit :=
  m <- get_self ;;
  match client m with
  | None => ret tt
  | Some _ =>
      try_finally
        (try_except
           (r <- ask w_logout ;; emit (ImapLogout r) ;; check r ;;
            print "Disconnected from IMAP server")
           is_Exception
           (fun _ => print "Error during disconnect"))
        (set_client None)
  end.

(** ** The run loop *)

(** Line 237: [max(all_messages) if all_messages else 0]. *)
Definition baseline_uid (all_messages : list uid) : uid :=
  match all_messages with
  | [] => 0%N
  | u :: rest => fold_left N.max rest u
  end.

(** Line 253. *)
Definition new_messages (all_messages : list uid) (last : uid) : list uid :=
  filter (fun u => (last <? u)%N) all_messages.

Fixpoint insert_sorted (u : uid) (l : list uid) : list uid :=
  match l with
  | [] => [u]
  | v :: l' => if (u <=? v)%N then u :: l else v :: insert_sorted u l'
  end.

(** [sorted] on a list of integers. *)
Fixpoint sorted (l : list uid) : list uid :=
  match l with
  | [] => []
  | u :: l' => insert_sorted u (sorted l')
  end.

Inductive flow := Next | Break.

Definition is_some {A} (o : option A) : bool :=
  match o with Some _ => true | None => false end.

(** Lines 260-278: the body of the loop over the new identifiers. *)
Definition process_uid (u : uid) : M flow :=
  try_except
    (m <- get_self ;;
     match client m with
     | Some _ =>
         r <- imap_fetch u ;;
         match r with
         | Some msg =>
             ok <- process_new_email u msg ;;
             when ok
               (n <- get_emails_processed ;;
                set_emails_processed (S n) ;;
                update_status true None (Some (S n))) ;;
             m <- get_self ;;
             set_last_uid (N.max (last_uid m) u) ;;
             ret Next
         | None =>
             print "Invalid email data type" ;;
             ret Next
         end
     | None => ret Break
     end)
    is_Exception
    (fun _ => print "Error processing email UID" ;; ret Next).

(** Lines 256-278. *)
Fixpoint for_uids (uids : list uid) : M unit :=
  match uids with
  | [] => ret tt
  | u :: rest =>
      m <- get_self ;;
      if negb (running m) then ret tt
      else
        f <- process_uid u ;;
        match f with
        | Next => for_uids rest
        | Break => ret tt
        end
  end.

(** Lines 283-286. *)
Fixpoint idle_wait (n : nat) : M unit :=
  match n with
  | O => ret tt
  | S k =>
      m <- get_self ;;
      if negb (running m) then ret tt
      else sleep 1 ;; idle_wait k
  end.

(** Lines 244-286: the body of the [try] of one cycle. *)
Definition poll : M unit :=
  m <- get_self ;;
  when (is_some (client m)) imap_noop ;;
  m <- get_self ;;
  match client m with
  | None => ret tt
  | Some _ =>
      all_messages <- imap_search ;;
      m <- get_self ;;
      let new := new_messages all_messages (last_uid m) in
      match new with
      | [] => print "No new emails found"
      | _ => for_uids (sorted new)
      end ;;
      idle_wait 30
  end.

(** Lines 289-294. *)
Definition on_transient : M unit :=
  print "Transient IMAP/SSL error - reconnecting" ;;
  disconnect ;;
  sleep 5 ;;
  c <- connect ;;
  when (negb c) (sleep 10).

(** Lines 296-298. *)
Definition on_error (e : error) : M unit :=
  print "Error in monitoring loop" ;;
  update_status false (Some (err_text e)) None ;;
  sleep 10.

(** Lines 243-298: one iteration of [while self.running].  The first
    [except] clause takes the transient classes, the second every other
    [Exception]; an exception raised inside a handler leaves the
    statement. *)
Definition cycle : M unit :=
  try_except poll is_Exception
    (fun e => if is_transient (err_class e) then on_transient else on_error e).

(** Line 242. *)
Fixpoint monitor_loop (fuel : nat) : M unit :=
  m <- get_self ;;
  if negb (running m) then ret tt
  else match fuel with
       | O => out_of_fuel
       | S fuel' => cycle ;; monitor_loop fuel'
       end.

(** Lines 233-238. *)
Definition take_baseline : M unit :=
  all_messages <- imap_search ;;
  set_last_uid (baseline_uid all_messages) ;;
  print "Monitoring from UID".

(** Lines 231-306 of [start]: the [try] statement with its handler and
    its [finally] clause. *)
Definition monitored (fuel : nat) : M unit :=
  try_finally
    (try_except
       (m <- get_self ;;
        match client m with
        | None => ret tt
        | Some _ =>
            take_baseline ;;
            set_emails_processed 0 ;;
            monitor_loop fuel
        end)
       is_Exception
       (fun e =>
          print "Critical error in email monitor" ;;
          update_status false (Some (err_text e)) None))
    (disconnect ;;
     set_running false ;;
     update_status false None None).

(** [start()]. *)
Definition start (fuel : nat) : M unit :=
  m <- get_self ;;
  if running m then print "Monitor is already running"
  else
    print "Starting email monitor..." ;;
    set_running true ;;
    update_status true None None ;;
    c <- connect ;;
    if negb c then set_running false
    else monitored fuel.

(** [stop()]. *)
Definition stop : M unit :=
  m <- get_self ;;
  if negb (running m) then print "Monitor is not running"
  else
    print "Stopping email monitor..." ;;
    set_running false ;;
    update_status false None None.

(** [signal_handler(signum, frame)]. *)
Definition signal_handler (signum : nat) : M unit :=
  print "Received signal, shutting down gracefully..." ;;
  stop ;;
  sys_exit 0.

(** The environment variables read at import time. *)
Record Config := mkConfig {
  EMAIL_USER : option string;
  EMAIL_PASSWORD : option string
}.

(** [EmailMonitor.__init__]. *)
Definition EmailMonitor (cfg : Config) : M unit :=
  set_self (mkMonitor false None 0%N) ;;
  if negb (opt_truthy (EMAIL_USER cfg)) || negb (opt_truthy (EMAIL_PASSWORD cfg))
  then
    print "EMAIL_USER and EMAIL_PASSWORD environment variables are required" ;;
    sys_exit 1
  else ret tt.

Definition usage : M unit :=
  print "Usage: python email_monitor.py [start|stop]" ;;
  sys_exit 1.

(** [main()], with [sys.argv] and the environment. *)
Definition main (argv : list string) (cfg : Config) (fuel : nat) : M unit :=
  match argv with
  | [_; command] =>
      if negb (str_in command ["start"; "stop"]) then usage
      else
        EmailMonitor cfg ;;
        if String.eqb command "start" then start fuel
        else if String.eqb command "stop" then stop
        else ret tt
  | _ => usage
  end.

(** A run of a computation from the state of a process that has made no
    call yet. *)
Definition initial_state : State := mkState (mkMonitor false None 0%N) 0 0.

(** ** Vocabulary of the statements *)

(** Events other than a search, the fetch of a message and its hand-off. *)
Definition quiet_ev (e : event) : Prop :=
  match e with
  | ImapSearch _ | ImapFetch _ _ | HttpPost _ _ => False
  | _ => True
  end.

Definition prepend {A} (l : list event) (o : Out A) : Out A :=
  mkOut (res o) (st o) (l ++ evs o).

(** The fetch of [u] and the hand-off of the record of [u]. *)
Definition about_uid (P : uid -> Prop) (e : event) : Prop :=
  match e with
  | ImapFetch u _ => P u
  | HttpPost entry _ => exists u, e_uid entry = Str.of_N u /\ P u
  | _ => True
  end.

(** Every identifier fetched or handed off lies above [c]. *)
Definition above (c : uid) : event -> Prop := about_uid (fun u => (c < u)%N).

(** The answer to the first [search] of a trace. *)
Fixpoint first_search (l : list event) : option (error + list uid) :=
  match l with
  | [] => None
  | ImapSearch r :: _ => Some r
  | _ :: l' => first_search l'
  end.

Definition is_write (e : event) : Prop :=
  match e with FileWrite _ _ _ => True | _ => False end.

Definition is_put (e : event) : Prop :=
  match e with HttpPut _ _ => True | _ => False end.

(** What a computation may end with: the exceptions in [K], and running
    out of iterations if [F]. *)
Definition ends_in {A} (K : exn -> Prop) (F : Prop) (r : Res A) : Prop :=
  match r with
  | Ok _ => True
  | Raised x => K x
  | Fuel => F
  end.

Definition only_exceptions (x : exn) : Prop :=
  match x with Exception _ => True | SystemExit _ => False end.

Definition tick (s : State) : State :=
  mkState (self s) (emails_processed s) (S (now s)).

(** [sat Inv E K F m w s]: run from [s] in the world [w], the computation
    [m] keeps the invariant [Inv] of the monitor, emits only events in [E],
    and ends as [K] and [F] allow. *)
Definition sat (Inv : Monitor -> Prop) (E : event -> Prop) {A}
    (K : exn -> Prop) (F : Prop) (m : M A) (w : World) (s : State) : Prop :=
  Inv (self s) ->
  Inv (self (st (m w s))) /\ Forall E (evs (m w s)) /\ ends_in K F (res (m w s)).

Definition spec (Inv : Monitor -> Prop) (E : event -> Prop) {A}
    (K : exn -> Prop) (F : Prop) (m : M A) : Prop :=
  forall w s, sat Inv E K F m w s.

(** The events about the identifier [u] are in [E]. *)
Definition uid_ok (E : event -> Prop) (u : uid) : Prop :=
  (forall r, E (ImapFetch u r))
  /\ (forall entry r, e_uid entry = Str.of_N u -> E (HttpPost entry r)).

(** The [try] statement of [start] around any loop, handler and
    [finally] clause. *)
Definition guarded (L : M unit) (H : error -> M unit) (Fin : M unit) : M unit :=
  try_finally
    (try_except
       (m <- get_self ;;
        match client m with
        | None => ret tt
        | Some _ => take_baseline ;; L
        end)
       is_Exception H)
    Fin.

(** [K] lets every [Exception] through. *)
Definition accepts (K : exn -> Prop) : Prop := forall e, K (Exception e).

(** The console line of [update_status] for an outcome of the PUT. *)
Definition status_line (r : http_outcome) : string :=
  match r with
  | Response code =>
      if Nat.eqb code 200 then "Status updated" else "Failed to update status"
  | HttpRaises _ => "Error updating status"
  end.

(** The console line of [disconnect] for an outcome of the logout. *)
Definition logout_line (r : option error) : string :=
  match r with
  | None => "Disconnected from IMAP server"
  | Some _ => "Error during disconnect"
  end.

(** [m] returns [a] and leaves the monitor as [mon]. *)
Definition yields {A} (m : M A) (w : World) (s : State) (a : A) (mon : Monitor) : Prop :=
  res (m w s) = Ok a /\ self (st (m w s)) = mon.

(** In the cycle that starts in [s], the keep-alive or the search raises
    [e]. *)
Definition poll_fails (w : World) (s : State) (e : error) : Prop :=
  w_noop w (now s) = Some e
  \/ (w_noop w (now s) = None /\ w_search w (S (now s)) = inl e).

(** The events of a cycle up to that exception. *)
Definition failed_poll (e : error) (pre : list event) : Prop :=
  pre = [ImapNoop (Some e)] \/ pre = [ImapNoop None; ImapSearch (inl e)].

(** ** Sample environments *)

Definition text_message : Message :=
  mkMessage (Some "Well 7") (Some "field@example.org") false [] (Some " see attached ").

(** Every call succeeds; the mailbox holds the identifiers 10 and 11. *)
Definition calm : World :=
  mkWorld (fun _ => 0%Z)
    (fun _ => Response 200) (fun _ => Response 201)
    (fun _ => None) (fun _ => None) (fun _ => None) (fun _ => None)
    (fun _ => None)
    (fun _ => inr [10%N; 11%N])
    (fun _ _ => FetchBytes text_message)
    (fun _ => None).

(** The API sink answers 500 to every POST. *)
Definition rejecting : World :=
  mkWorld (w_clock calm) (w_put calm) (fun _ => Response 500)
    (w_open calm) (w_login calm) (w_select calm) (w_logout calm)
    (w_noop calm) (w_search calm) (w_fetch calm) (w_write calm).

(** The keep-alive raises an exception that is not transient. *)
Definition broken_noop : World :=
  mkWorld (w_clock calm) (w_put calm) (w_post calm)
    (w_open calm) (w_login calm) (w_select calm) (w_logout calm)
    (fun _ => Some (mkError OtherError "NOOP failed"))
    (w_search calm) (w_fetch calm) (w_write calm).

(** The keep-alive times out. *)
Definition timeout_noop : World :=
  mkWorld (w_clock calm) (w_put calm) (w_post calm)
    (w_open calm) (w_login calm) (w_select calm) (w_logout calm)
    (fun _ => Some (mkError TimeoutError "timed out"))
    (w_search calm) (w_fetch calm) (w_write calm).

(** Every fetch times out. *)
Definition timeout_fetch : World :=
  mkWorld (w_clock calm) (w_put calm) (w_post calm)
    (w_open calm) (w_login calm) (w_select calm) (w_logout calm)
    (w_noop calm) (w_search calm)
    (fun _ _ => FetchRaises (mkError TimeoutError "timed out"))
    (w_write calm).

(** A monitor in its loop: connected, cursor at 10. *)
Definition watching : State := mkState (mkMonitor true (Some 0) 10%N) 0 0.

Definition las_part : Part :=
  mkPart "application/octet-stream" (Some "log.las") (Some [Byte.x00]) None.

Definition dots_part : Part :=
  mkPart "application/octet-stream" (Some "..") (Some [Byte.x00]) None.

Definition exe_part : Part :=
  mkPart "application/octet-stream" (Some "payload.exe") (Some [Byte.x4d]) None.

Definition body_part : Part :=
  mkPart "text/plain" None None (Some "please find the log attached").

Definition report_message : Message :=
  mkMessage (Some "Log") (Some "rig@example.org") true
    [body_part; las_part; exe_part] None.

(** The scenario of the specification: the mailbox holds 10 when the
    monitor starts (the baseline search is the sixth call), and 11 and 12
    afterwards; 11 carries a .las and an .exe attachment. *)
Definition scenario : World :=
  mkWorld (w_clock calm) (w_put calm) (w_post calm)
    (w_open calm) (w_login calm) (w_select calm) (w_logout calm)
    (w_noop calm)
    (fun t => if Nat.leb t 5 then inr [10%N] else inr [12%N; 10%N; 11%N])
    (fun _ u => if (u =? 11)%N then FetchBytes report_message
                else FetchBytes text_message)
    (w_write calm).

(** The calls of a trace, without console lines and delays. *)
Definition calls (l : list event) : list event :=
  filter (fun e => match e with Print _ | Sleep _ => false | _ => true end) l.

(** ** Vocabulary of the further properties *)

Definition is_print (e : event) : Prop :=
  match e with Print _ => True | _ => False end.

Definition is_post (e : event) : Prop :=
  match e with HttpPost _ _ => True | _ => False end.

(** The identifiers fetched in a trace, in order. *)
Fixpoint fetched (l : list event) : list uid :=
  match l with
  | [] => []
  | ImapFetch u _ :: l' => u :: fetched l'
  | _ :: l' => fetched l'
  end.

(** The hand-offs of a trace, in order. *)
Fixpoint posted (l : list event) : list (Entry * http_outcome) :=
  match l with
  | [] => []
  | HttpPost entry r :: l' => (entry, r) :: posted l'
  | _ :: l' => posted l'
  end.

(** The status reports of a trace, in order. *)
Fixpoint reported (l : list event) : list StatusData :=
  match l with
  | [] => []
  | HttpPut data _ :: l' => data :: reported l'
  | _ :: l' => reported l'
  end.

(** The test of line 94 on the outcome of the POST. *)
Definition handoff_ok (r : http_outcome) : bool :=
  match r with
  | Response code => Nat.eqb code 201
  | HttpRaises _ => false
  end.

(** The record of lines 168-175 for a list of attachments. *)
Definition entry_of (u : uid) (msg : Message) (attachments : list string) : Entry :=
  mkEntry (Str.of_N u) (opt_default "Unknown" (msg_from msg))
    (opt_default "No Subject" (msg_subject msg))
    (Str.strip (extract_body msg)) attachments "pending".

(** Lines 127-129: the attachments of a message. *)
Definition attachments_of (msg : Message) : M (list string) :=
  if is_multipart msg then attachment_loop (walk msg) [] else ret [].

(** The file [name] was written to the attachment directory. *)
Definition stored (name : string) (l : list event) : Prop :=
  exists payload, In (FileWrite (ATTACHMENTS_DIR ++ "/" ++ name) payload None) l.

(** The three calls of [connect] made from the call count [t] succeed. *)
Definition connects (w : World) (t : nat) : bool :=
  negb (is_some (w_open w t)) && negb (is_some (w_login w (S t)))
  && negb (is_some (w_select w (S (S t)))).

(** The error [connect] reports when its calls from [t] do not succeed. *)
Definition connect_error (w : World) (t : nat) : option error :=
  match w_open w t with
  | Some e => Some e
  | None =>
      match w_login w (S t) with
      | Some e => Some e
      | None => w_select w (S (S t))
      end
  end.


(** Events that belong to no disconnect and no reconnect: not a logout,
    not the opening of a connection, a login or a folder selection, and no
    delay other than the one-second waits of lines 283-286. *)
Definition no_reconnect_ev (e : event) : Prop :=
  match e with
  | ImapOpen _ | ImapLogin _ | ImapSelect _ | ImapLogout _ => False
  | Sleep secs => secs = 1
  | _ => True
  end.

(** A part named like a log whose payload does not decode. *)
Definition hollow_part : Part :=
  mkPart "multipart/mixed" (Some "run.las") None None.



Definition hollow_message : Message :=
  mkMessage (Some "Log") (Some "rig@example.org") true
    [body_part; las_part; hollow_part] None.

(** The server refuses the login. *)
Definition calm_no_login : World :=
  mkWorld (w_clock calm) (w_put calm) (w_post calm)
    (w_open calm) (fun _ => Some (mkError OtherError "bad credentials"))
    (w_select calm) (w_logout calm)
    (w_noop calm) (w_search calm) (w_fetch calm) (w_write calm).

(** Every search raises. *)
Definition calm_no_search : World :=
  mkWorld (w_clock calm) (w_put calm) (w_post calm)
    (w_open calm) (w_login calm) (w_select calm) (w_logout calm)
    (w_noop calm) (fun _ => inl (mkError OtherError "SEARCH failed"))
    (w_fetch calm) (w_write calm).

(** A monitor in its loop that has lost its session. *)
Definition adrift : State := mkState (mkMonitor true None 10%N) 0 0.

(** The keep-alive times out and no connection can be opened. *)
Definition offline : World :=
  mkWorld (w_clock calm) (w_put calm) (w_post calm)
    (fun _ => Some (mkError ConnectionResetError "connection reset"))
    (w_login calm) (w_select calm) (w_logout calm)
    (fun _ => Some (mkError TimeoutError "timed out"))
    (w_search calm) (w_fetch calm) (w_write calm).

(** * Properties *)

(** ** Runs on sample inputs *)

Example sanitize_traversal : sanitize "../../etc/passwd" = "passwd".
Proof. reflexivity. Qed.

Example sanitize_dots : sanitize "a/b<c>...tar..gz" = "b_c_.tar.gz".
Proof. reflexivity. Qed.

Example splitext_examples :
  splitext "log.las" = ("log", ".las")
  /\ splitext ".bashrc" = (".bashrc", EmptyString)
  /\ splitext "." = (".", EmptyString)
  /\ splitext "a.tar.gz" = ("a.tar", ".gz")
  /\ splitext "..x.PNG" = ("..x", ".PNG")
  /\ file_ext_of "..x.PNG" = ".png".
Proof. repeat split; reflexivity. Qed.

Example exe_is_skipped :
  attachment_step exe_part [] calm initial_state
  = mkOut (Ok []) initial_state
      [Print "Skipping attachment: file type not allowed"].
Proof. reflexivity. Qed.

Example las_is_written :
  attachment_step las_part [] calm initial_state
  = mkOut (Ok ["log.las"]) (tick initial_state)
      [FileWrite "data/email-attachments/log.las" [Byte.x00] None;
       Print "Saved attachment"].
Proof. reflexivity. Qed.

Example scenario_run :
  let o := start 1 scenario initial_state in
  calls (evs o)
  = [HttpPut (mkStatus true None None (Some 0%Z) None) (Response 200);
     ImapOpen None; ImapLogin None; ImapSelect None;
     ImapSearch (inr [10%N]);
     ImapNoop None;
     ImapSearch (inr [12%N; 10%N; 11%N]);
     ImapFetch 11%N (FetchBytes report_message);
     FileWrite "data/email-attachments/log.las" [Byte.x00] None;
     HttpPost
       (mkEntry "11" "rig@example.org" "Log" "please find the log attached"
          ["log.las"] "pending") (Response 201);
     HttpPut (mkStatus true None (Some "1") (Some 0%Z) None) (Response 200);
     ImapFetch 12%N (FetchBytes text_message);
     HttpPost
       (mkEntry "12" "field@example.org" "Well 7" "see attached" [] "pending")
       (Response 201);
     HttpPut (mkStatus true None (Some "2") (Some 0%Z) None) (Response 200)]
  /\ last_uid (self (st o)) = 12%N
  /\ emails_processed (st o) = 2
  /\ res o = Fuel.
Proof. vm_compute. repeat split. Qed.

(** ** File names *)

Section StringFacts.

Lemma existsb_app (p : ascii -> bool) (a b : string) :
  Str.existsb p (a ++ b) = Str.existsb p a || Str.existsb p b.
Proof.
  induction a as [|c a IH]; simpl; [reflexivity|].
  now rewrite IH, orb_assoc.
Qed.

Lemma rfind_lower_bound (c : ascii) (s : string) : (-1 <= Str.rfind c s)%Z.
Proof.
  induction s as [|a s IH]; simpl; [lia|].
  destruct (Z.leb_spec 0 (Str.rfind c s)); [lia|].
  destruct (Ascii.eqb a c); lia.
Qed.

Lemma rfind_absent (c : ascii) (s : string) :
  Str.existsb (fun a => Ascii.eqb a c) s = false -> Str.rfind c s = (-1)%Z.
Proof.
  induction s as [|a s IH]; simpl; [reflexivity|].
  intros H. apply orb_false_elim in H as [Ha Hs].
  rewrite (IH Hs), Ha. reflexivity.
Qed.

(** What follows the last occurrence of [c] holds no [c]. *)
Lemma drop_after_rfind (c : ascii) (s : string) :
  Str.existsb (fun a => Ascii.eqb a c)
    (Str.drop (Z.to_nat (Str.rfind c s + 1)) s) = false.
Proof.
  induction s as [|a s IH]; simpl; [reflexivity|].
  pose proof (rfind_lower_bound c s) as Hlb.
  destruct (Z.leb_spec 0 (Str.rfind c s)) as [Hr|Hr].
  - replace (Z.to_nat (Str.rfind c s + 1 + 1))
      with (S (Z.to_nat (Str.rfind c s + 1))) by lia.
    exact IH.
  - assert (Hm : Str.rfind c s = (-1)%Z) by lia.
    rewrite Hm in IH. simpl in IH.
    destruct (Ascii.eqb a c) eqn:Hac; simpl; [exact IH|].
    now rewrite Hac, IH.
Qed.

Lemma basename_no_slash (p : string) :
  Str.existsb (fun a => Ascii.eqb a Str.slash) (basename p) = false.
Proof. apply drop_after_rfind. Qed.

Lemma basename_fixed (p : string) :
  Str.existsb (fun a => Ascii.eqb a Str.slash) p = false -> basename p = p.
Proof.
  intros H. unfold basename. now rewrite (rfind_absent _ _ H).
Qed.

Lemma replace_dangerous_cons (a : ascii) (s : string) :
  replace_dangerous (String a s)
  = String (if dangerous a then Str.underscore else a) (replace_dangerous s).
Proof. reflexivity. Qed.

Lemma replace_dangerous_clean (s : string) :
  Str.existsb dangerous (replace_dangerous s) = false.
Proof.
  induction s as [|a s IH]; [reflexivity|].
  rewrite replace_dangerous_cons. cbn [Str.existsb]. rewrite IH, orb_false_r.
  destruct (dangerous a) eqn:Ha; [reflexivity | exact Ha].
Qed.

Lemma replace_dangerous_fixed (s : string) :
  Str.existsb dangerous s = false -> replace_dangerous s = s.
Proof.
  induction s as [|a s IH]; [reflexivity|].
  cbn [Str.existsb]. intros H. apply orb_false_elim in H as [Ha Hs].
  now rewrite replace_dangerous_cons, Ha, (IH Hs).
Qed.

Lemma replace_dangerous_no_slash (s : string) :
  Str.existsb (fun a => Ascii.eqb a Str.slash) s = false ->
  Str.existsb (fun a => Ascii.eqb a Str.slash) (replace_dangerous s) = false.
Proof.
  induction s as [|a s IH]; [reflexivity|].
  cbn [Str.existsb]. intros H. apply orb_false_elim in H as [Ha Hs].
  rewrite replace_dangerous_cons. cbn [Str.existsb].
  rewrite (IH Hs), orb_false_r.
  destruct (dangerous a); [reflexivity | exact Ha].
Qed.

(** [collapse_dots] only removes characters. *)
Lemma collapse_dots_keeps_absent (p : ascii -> bool) (s : string) :
  Str.existsb p s = false -> Str.existsb p (collapse_dots s) = false.
Proof.
  induction s as [|a s IH]; simpl; [reflexivity|].
  intros H. apply orb_false_elim in H as [Ha Hs].
  destruct (Ascii.eqb a Str.dot && starts_with_dot s); simpl.
  - now apply IH.
  - now rewrite Ha, (IH Hs).
Qed.

Lemma has_dotdot_app (a b : string) :
  has_dotdot (a ++ String Str.dot (String Str.dot b)) = true.
Proof.
  induction a as [|c a IH]; simpl; [reflexivity|].
  rewrite IH. apply orb_true_r.
Qed.

Lemma collapse_dots_head (s : string) :
  starts_with_dot (collapse_dots s) = starts_with_dot s.
Proof.
  induction s as [|a s IH]; simpl; [reflexivity|].
  destruct (Ascii.eqb a Str.dot) eqn:Ha; simpl.
  - destruct (starts_with_dot s) eqn:Hs; simpl; [exact IH | exact Ha].
  - exact Ha.
Qed.

Lemma collapse_dots_no_dotdot (s : string) :
  has_dotdot (collapse_dots s) = false.
Proof.
  induction s as [|a s IH]; simpl; [reflexivity|].
  destruct (Ascii.eqb a Str.dot) eqn:Ha; simpl.
  - destruct (starts_with_dot s) eqn:Hs; simpl; [exact IH|].
    now rewrite collapse_dots_head, Hs, IH, andb_false_r.
  - now rewrite Ha, IH.
Qed.

Lemma collapse_dots_fixed (s : string) :
  has_dotdot s = false -> collapse_dots s = s.
Proof.
  induction s as [|a s IH]; simpl; [reflexivity|].
  intros H. apply orb_false_elim in H as [Ha Hs].
  now rewrite Ha, (IH Hs).
Qed.

Lemma sanitize_no_slash (f : string) :
  Str.existsb (fun a => Ascii.eqb a Str.slash) (sanitize f) = false.
Proof.
  unfold sanitize. apply collapse_dots_keeps_absent,
    replace_dangerous_no_slash, basename_no_slash.
Qed.

Lemma sanitize_clean (f : string) :
  Str.existsb dangerous (sanitize f) = false.
Proof.
  unfold sanitize. apply collapse_dots_keeps_absent, replace_dangerous_clean.
Qed.

Lemma needs_fallback_cases (x : string) :
  needs_fallback x = true -> x = EmptyString \/ x = "." \/ x = "..".
Proof.
  unfold needs_fallback. intros H. apply orb_true_iff in H as [H|H].
  - destruct x; [now left | discriminate H].
  - unfold str_in in H. cbn [List.existsb] in H. rewrite orb_false_r in H.
    apply orb_true_iff in H as [H|H]; apply String.eqb_eq in H; auto.
Qed.

Lemma fallback_has_no_allowed_ext (x : string) :
  x = EmptyString \/ x = "." \/ x = ".." ->
  str_in (file_ext_of x) allowed_extensions = false.
Proof. intros [H|[H|H]]; rewrite H; reflexivity. Qed.

Lemma allowed_ext_keeps_name (x : string) :
  str_in (file_ext_of x) allowed_extensions = true -> needs_fallback x = false.
Proof.
  intros H. destruct (needs_fallback x) eqn:Hf; [|reflexivity].
  apply needs_fallback_cases, fallback_has_no_allowed_ext in Hf. congruence.
Qed.

End StringFacts.

(** C5. For every file name, the sanitisation of lines 134-136 (basename,
    then each of the characters of the class of line 135 replaced by an
    underscore, then every run of two or more dots collapsed into one)
    yields a name that contains no path separator and no two dots in a
    row, and sanitising twice gives the same name as sanitising once. *)
Theorem sanitize_safe_and_idempotent (filename : string) :
  (forall a b, sanitize filename <> a ++ String Str.slash b)
  /\ (forall a b, sanitize filename <> a ++ ".." ++ b)
  /\ sanitize (sanitize filename) = sanitize filename.
Proof.
  split; [|split].
  - intros a b H.
    pose proof (sanitize_no_slash filename) as Hs.
    rewrite H, existsb_app in Hs. simpl in Hs.
    now rewrite orb_true_r in Hs.
  - intros a b H.
    assert (Hd : has_dotdot (sanitize filename) = false)
      by apply collapse_dots_no_dotdot.
    rewrite H in Hd. simpl in Hd. now rewrite has_dotdot_app in Hd.
  - unfold sanitize at 1.
    rewrite (basename_fixed _ (sanitize_no_slash filename)).
    rewrite (replace_dangerous_fixed _ (sanitize_clean filename)).
    apply collapse_dots_fixed, collapse_dots_no_dotdot.
Qed.

(** ** Lists of identifiers *)

Lemma insert_sorted_In (u v : uid) (l : list uid) :
  In u (insert_sorted v l) <-> u = v \/ In u l.
Proof.
  induction l as [|x l IH]; simpl; [intuition|].
  destruct (v <=? x)%N; simpl; [intuition|].
  rewrite IH. intuition.
Qed.

Lemma sorted_In (u : uid) (l : list uid) : In u (sorted l) <-> In u l.
Proof.
  induction l as [|x l IH]; simpl; [reflexivity|].
  rewrite insert_sorted_In, IH. intuition.
Qed.

Lemma new_messages_In (u : uid) (all_messages : list uid) (last : uid) :
  In u (new_messages all_messages last) <-> In u all_messages /\ (last < u)%N.
Proof.
  unfold new_messages. rewrite filter_In, N.ltb_lt. reflexivity.
Qed.

Lemma fold_max_lower (l : list uid) (a : uid) : (a <= fold_left N.max l a)%N.
Proof.
  revert a. induction l as [|x l IH]; intros a; simpl; [lia|].
  specialize (IH (N.max a x)). lia.
Qed.

Lemma fold_max_upper (l : list uid) (a u : uid) :
  In u l -> (u <= fold_left N.max l a)%N.
Proof.
  revert a. induction l as [|x l IH]; intros a; simpl; [tauto|].
  intros [->|H]; [|now apply IH].
  pose proof (fold_max_lower l (N.max a u)). lia.
Qed.

Lemma baseline_uid_upper (all_messages : list uid) (u : uid) :
  In u all_messages -> (u <= baseline_uid all_messages)%N.
Proof.
  destruct all_messages as [|x l]; simpl; [tauto|].
  intros [->|H]; [apply fold_max_lower | now apply fold_max_upper].
Qed.

(** ** A program logic for the monad *)

Section Logic.

Variable Inv : Monitor -> Prop.
Variable E : event -> Prop.

Lemma sat_bind {A B} K F (m : M A) (f : A -> M B) w s :
  sat Inv E K F m w s ->
  (forall a, res (m w s) = Ok a -> sat Inv E K F (f a) w (st (m w s))) ->
  sat Inv E K F (bind m f) w s.
Proof.
  intros Hm Hf HI. destruct (Hm HI) as (HI1 & HE1 & HK1).
  unfold bind. destruct (res (m w s)) as [a| x |] eqn:Hr; simpl.
  - destruct (Hf a eq_refl HI1) as (HI2 & HE2 & HK2).
    repeat split; auto. apply Forall_app; auto.
  - repeat split; auto.
  - repeat split; auto.
Qed.

Lemma spec_bind {A B} K F (m : M A) (f : A -> M B) :
  spec Inv E K F m -> (forall a, spec Inv E K F (f a)) -> spec Inv E K F (bind m f).
Proof. intros Hm Hf w s. apply sat_bind; [apply Hm | intros; apply Hf]. Qed.

Lemma sat_get_self {B} K F (f : Monitor -> M B) w s :
  (Inv (self s) -> sat Inv E K F (f (self s)) w s) -> sat Inv E K F (bind get_self f) w s.
Proof.
  intros Hf HI. specialize (Hf HI HI).
  unfold bind, get_self; simpl. destruct (f (self s) w s); exact Hf.
Qed.

Lemma spec_ret {A} K F (a : A) : spec Inv E K F (ret a).
Proof. intros w s HI; simpl; auto. Qed.

Lemma spec_raise {A} (K : exn -> Prop) F x : K x -> spec Inv E K F (@raise A x).
Proof. intros HK w s HI; simpl; auto. Qed.

Lemma spec_out_of_fuel {A} K (F : Prop) : F -> spec Inv E K F (@out_of_fuel A).
Proof. intros HF w s HI; simpl; auto. Qed.

Lemma spec_emit K F e : E e -> spec Inv E K F (emit e).
Proof. intros He w s HI; simpl; auto. Qed.

Lemma spec_ask {A} K F (f : World -> nat -> A) : spec Inv E K F (ask f).
Proof. intros w s HI; simpl; auto. Qed.

Lemma spec_get_self K F : spec Inv E K F get_self.
Proof. intros w s HI; simpl; auto. Qed.

Lemma spec_get_now K F : spec Inv E K F get_now.
Proof. intros w s HI; simpl; auto. Qed.

Lemma spec_get_emails_processed K F : spec Inv E K F get_emails_processed.
Proof. intros w s HI; simpl; auto. Qed.

Lemma spec_set_emails_processed K F n : spec Inv E K F (set_emails_processed n).
Proof. intros w s HI; simpl; auto. Qed.

Lemma spec_check (K : exn -> Prop) F r :
  (forall e, K (Exception e)) -> spec Inv E K F (check r).
Proof. intros HK w s HI. destruct r; simpl; auto. Qed.

Lemma spec_when K F b (m : M unit) : spec Inv E K F m -> spec Inv E K F (when b m).
Proof. intros Hm. destruct b; [exact Hm | apply spec_ret]. Qed.

Lemma spec_weaken {A} (K K' : exn -> Prop) (F F' : Prop) (m : M A) :
  (forall x, K x -> K' x) -> (F -> F') -> spec Inv E K F m -> spec Inv E K' F' m.
Proof.
  intros HK HF Hm w s HI. destruct (Hm w s HI) as (H1 & H2 & H3).
  repeat split; auto. destruct (res (m w s)); simpl in *; auto.
Qed.

(** [except Exception] takes whatever the body may raise, when the body
    raises exceptions only. *)
Lemma spec_try_except {A} K F (body : M A) (handler : error -> M A) :
  spec Inv E only_exceptions F body ->
  (forall e, spec Inv E K F (handler e)) ->
  spec Inv E K F (try_except body is_Exception handler).
Proof.
  intros Hb Hh w s HI. destruct (Hb w s HI) as (HI1 & HE1 & HK1).
  unfold try_except. destruct (res (body w s)) as [a| x |] eqn:Hr.
  - rewrite Hr. auto.
  - destruct x as [e|code]; simpl in HK1; [|contradiction]. simpl.
    destruct (Hh e w (st (body w s)) HI1) as (HI2 & HE2 & HK2).
    repeat split; auto. apply Forall_app; auto.
  - rewrite Hr. auto.
Qed.

Lemma spec_try_finally {A} (K : exn -> Prop) F (body : M A) (final : M unit) :
  spec Inv E K F body -> spec Inv E K F final -> spec Inv E K F (try_finally body final).
Proof.
  intros Hb Hf w s HI. destruct (Hb w s HI) as (HI1 & HE1 & HK1).
  unfold try_finally.
  destruct (Hf w (st (body w s)) HI1) as (HI2 & HE2 & HK2).
  destruct (res (body w s)) as [a| x |] eqn:Hr.
  - destruct (res (final w (st (body w s)))) eqn:Hr2; simpl;
      repeat split; auto; apply Forall_app; auto.
  - destruct (res (final w (st (body w s)))) eqn:Hr2; simpl;
      repeat split; auto; apply Forall_app; auto.
  - rewrite Hr. auto.
Qed.

End Logic.

(** ** What each operation of the monitor keeps

    The operations are taken in the order of the source.  [Inv] is any
    property of the monitor that survives a change of session and an
    advance of the cursor; [E] holds of every event but searches, fetches
    and hand-offs, of searches where they occur, and of fetches and
    hand-offs for every identifier above the cursor. *)

Section MonitorSpecs.

Variable Inv : Monitor -> Prop.
Variable E : event -> Prop.

Hypothesis E_quiet : forall e, quiet_ev e -> E e.
Hypothesis E_search : forall r, E (ImapSearch r).
Hypothesis Inv_client :
  forall m c, Inv m -> Inv (mkMonitor (running m) c (last_uid m)).
Hypothesis Inv_advance :
  forall m u, Inv m -> Inv (mkMonitor (running m) (client m) (N.max (last_uid m) u)).
Hypothesis E_new :
  forall m u, Inv m -> (last_uid m < u)%N -> uid_ok E u.

Lemma accepts_only_exceptions : accepts only_exceptions.
Proof. intros e. exact Logic.I. Qed.

Lemma spec_print K F l : spec Inv E K F (print l).
Proof. apply spec_emit, E_quiet. exact Logic.I. Qed.

Lemma spec_sleep K F n : spec Inv E K F (sleep n).
Proof. apply spec_emit, E_quiet. exact Logic.I. Qed.

Lemma spec_set_client K F c : spec Inv E K F (set_client c).
Proof. intros w s HI. simpl. repeat split; auto. Qed.

Ltac quiet := apply E_quiet; exact Logic.I.

Create HintDb specs.

Ltac spec_step :=
  first
    [ lazymatch goal with
      | |- spec _ _ _ _ (bind _ _) => apply spec_bind; [|intros]
      | |- spec _ _ _ _ (ret _) => apply spec_ret
      | |- spec _ _ _ _ (print _) => apply spec_print
      | |- spec _ _ _ _ (sleep _) => apply spec_sleep
      | |- spec _ _ _ _ (emit _) => apply spec_emit; try quiet
      | |- spec _ _ _ _ (ask _) => apply spec_ask
      | |- spec _ _ _ _ (check _) => apply spec_check; assumption
      | |- spec _ _ _ _ (raise _) => apply spec_raise; auto
      | |- spec _ _ _ _ get_self => apply spec_get_self
      | |- spec _ _ _ _ get_now => apply spec_get_now
      | |- spec _ _ _ _ get_emails_processed => apply spec_get_emails_processed
      | |- spec _ _ _ _ (set_emails_processed _) => apply spec_set_emails_processed
      | |- spec _ _ _ _ (set_client _) => apply spec_set_client
      | |- spec _ _ _ _ (when _ _) => apply spec_when
      | |- spec _ _ _ _ (try_except _ is_Exception _) =>
          apply spec_try_except; [pose proof accepts_only_exceptions | intros]
      | |- spec _ _ _ _ (try_finally _ _) => apply spec_try_finally
      | |- spec _ _ _ _ (match ?x with _ => _ end) => destruct x
      end
    | solve [eauto with specs] ].

Ltac spec_auto := repeat spec_step.

Lemma requests_put_spec K F data : accepts K -> spec Inv E K F (requests_put data).
Proof. intros HK. unfold requests_put. spec_auto. Qed.
#[local] Hint Resolve requests_put_spec : specs.

Lemma update_status_spec K F a b c : spec Inv E K F (update_status a b c).
Proof. unfold update_status. spec_auto. Qed.
#[local] Hint Resolve update_status_spec : specs.

Lemma requests_post_spec K F entry :
  accepts K -> (forall r, E (HttpPost entry r)) ->
  spec Inv E K F (requests_post entry).
Proof. intros HK HE. unfold requests_post. spec_auto. Qed.
#[local] Hint Resolve requests_post_spec : specs.

Lemma save_email_to_api_spec K F entry :
  (forall r, E (HttpPost entry r)) -> spec Inv E K F (save_email_to_api entry).
Proof. intros HE. unfold save_email_to_api. spec_auto. Qed.
#[local] Hint Resolve save_email_to_api_spec : specs.

Lemma write_file_spec K F path payload :
  accepts K -> spec Inv E K F (write_file path payload).
Proof. intros HK. unfold write_file. spec_auto. Qed.
#[local] Hint Resolve write_file_spec : specs.

Lemma attachment_step_spec K F part attachments :
  accepts K -> spec Inv E K F (attachment_step part attachments).
Proof. intros HK. unfold attachment_step. spec_auto. Qed.
#[local] Hint Resolve attachment_step_spec : specs.

Lemma attachment_loop_spec K F parts :
  accepts K -> forall attachments, spec Inv E K F (attachment_loop parts attachments).
Proof.
  intros HK. induction parts as [|part rest IH]; intros attachments; simpl.
  - apply spec_ret.
  - spec_auto.
Qed.
#[local] Hint Resolve attachment_loop_spec : specs.

Lemma process_new_email_spec K F u msg :
  uid_ok E u -> spec Inv E K F (process_new_email u msg).
Proof.
  intros [_ HE]. unfold process_new_email. spec_step; [|spec_auto].
  spec_step; [spec_auto|]. spec_step; [spec_auto|].
  spec_step; [|spec_auto].
  apply save_email_to_api_spec. intros r. now apply HE.
Qed.
#[local] Hint Resolve process_new_email_spec : specs.

Lemma connect_spec K F : spec Inv E K F connect.
Proof. unfold connect. spec_auto. Qed.
#[local] Hint Resolve connect_spec : specs.

Lemma disconnect_spec K F : spec Inv E K F disconnect.
Proof. unfold disconnect. spec_auto. Qed.
#[local] Hint Resolve disconnect_spec : specs.

Lemma imap_fetch_spec K F u :
  accepts K -> uid_ok E u -> spec Inv E K F (imap_fetch u).
Proof.
  intros HK [HE _]. unfold imap_fetch.
  spec_step; [spec_auto|]. spec_step; [apply spec_emit, HE|]. spec_auto.
Qed.
#[local] Hint Resolve imap_fetch_spec : specs.

(** Line 276. *)
Lemma advance_spec K F u :
  spec Inv E K F (m <- get_self ;; set_last_uid (N.max (last_uid m) u) ;; ret Next).
Proof. intros w s HI. simpl. repeat split; auto. Qed.
#[local] Hint Resolve advance_spec : specs.

Lemma process_uid_spec K F u : uid_ok E u -> spec Inv E K F (process_uid u).
Proof.
  intros Hu. unfold process_uid.
  repeat first [apply advance_spec | spec_step].
Qed.
#[local] Hint Resolve process_uid_spec : specs.

Lemma for_uids_spec K F uids :
  Forall (uid_ok E) uids -> spec Inv E K F (for_uids uids).
Proof.
  induction 1 as [|u rest Hu Hrest IH]; simpl; spec_auto.
Qed.
#[local] Hint Resolve for_uids_spec : specs.

Lemma idle_wait_spec K F n : spec Inv E K F (idle_wait n).
Proof. induction n as [|n IH]; simpl; spec_auto. Qed.
#[local] Hint Resolve idle_wait_spec : specs.

Lemma imap_noop_spec K F : accepts K -> spec Inv E K F imap_noop.
Proof. intros HK. unfold imap_noop. spec_auto. Qed.
#[local] Hint Resolve imap_noop_spec : specs.

Lemma imap_search_spec K F : accepts K -> spec Inv E K F imap_search.
Proof.
  intros HK. unfold imap_search.
  spec_step; [spec_auto|]. spec_step; [apply spec_emit, E_search|]. spec_auto.
Qed.
#[local] Hint Resolve imap_search_spec : specs.

Lemma poll_spec K F : accepts K -> spec Inv E K F poll.
Proof.
  intros HK w s. unfold poll.
  apply sat_get_self; intros _.
  apply sat_bind; [apply spec_when; auto with specs | intros _ _].
  apply sat_get_self; intros _.
  lazymatch goal with
  | |- sat _ _ _ _ (match ?c with _ => _ end) _ _ => destruct c
  end; [|apply spec_ret].
  apply sat_bind; [apply imap_search_spec, HK | intros all_messages _].
  apply sat_get_self; intros HI.
  apply sat_bind; [|intros; apply idle_wait_spec].
  destruct (new_messages _ _) eqn:Hnew; [apply spec_print|].
  rewrite <- Hnew. apply for_uids_spec, Forall_forall. intros x Hx.
  apply sorted_In, new_messages_In in Hx as [_ Hx].
  exact (E_new _ _ HI Hx).
Qed.
#[local] Hint Resolve poll_spec : specs.

Lemma on_transient_spec K F : spec Inv E K F on_transient.
Proof. unfold on_transient. spec_auto. Qed.
#[local] Hint Resolve on_transient_spec : specs.

Lemma on_error_spec K F e : spec Inv E K F (on_error e).
Proof. unfold on_error. spec_auto. Qed.
#[local] Hint Resolve on_error_spec : specs.

Lemma cycle_spec K F : spec Inv E K F cycle.
Proof. unfold cycle. spec_auto. Qed.
#[local] Hint Resolve cycle_spec : specs.

(** The loop can only stop by itself or for want of iterations. *)
Lemma monitor_loop_spec K fuel : spec Inv E K True (monitor_loop fuel).
Proof.
  induction fuel as [|fuel IH]; simpl; spec_auto.
  all: now apply spec_out_of_fuel.
Qed.

End MonitorSpecs.

(** ** Shapes of runs *)

(** Symbolic execution of the monad's combinators. *)
Ltac run :=
  cbv [try_except try_finally bind ret raise out_of_fuel emit print sleep ask
       check when get_self set_self set_running set_client set_last_uid
       get_emails_processed set_emails_processed get_now sys_exit
       requests_put requests_post imap_search imap_noop imap_fetch write_file
       res st evs prepend app is_Exception];
  cbn [self emails_processed now running client last_uid].

Lemma str_of_N_inj (a b : N) : Str.of_N a = Str.of_N b -> a = b.
Proof.
  unfold Str.of_N. intros H.
  assert (Hn : forall n, N.to_uint n <> Decimal.Nil).
  { intros [|p]; [discriminate | apply DecimalPos.Unsigned.to_uint_nonnil]. }
  apply DecimalN.Unsigned.to_uint_inj.
  pose proof (NilZero.usu _ (Hn a)) as Ha.
  pose proof (NilZero.usu _ (Hn b)) as Hb.
  rewrite H in Ha. congruence.
Qed.

Lemma bind_ok {A B} (m : M A) (f : A -> M B) w s a :
  res (m w s) = Ok a ->
  bind m f w s = prepend (evs (m w s)) (f a w (st (m w s))).
Proof. intros H. unfold bind, prepend. now rewrite H. Qed.

Lemma bind_get_self {B} (f : Monitor -> M B) w s :
  bind get_self f w s = f (self s) w s.
Proof. unfold bind, get_self; simpl. now destruct (f (self s) w s). Qed.


Lemma prepend_prepend {A} l1 l2 (o : Out A) :
  prepend l1 (prepend l2 o) = prepend (l1 ++ l2) o.
Proof. unfold prepend; simpl. now rewrite app_assoc. Qed.

(** A total computation returns. *)
Lemma spec_returns Inv E {A} (m : M A) :
  spec Inv E (fun _ => False) False m ->
  forall w s, Inv (self s) ->
  exists a, res (m w s) = Ok a /\ Forall E (evs (m w s)) /\ Inv (self (st (m w s))).
Proof.
  intros H w s HI. destruct (H w s HI) as (H1 & H2 & Hr).
  destruct (res (m w s)); simpl in Hr; [eauto | contradiction | contradiction].
Qed.

Lemma first_search_quiet (pre l : list event) :
  Forall quiet_ev pre -> first_search (pre ++ l) = first_search l.
Proof.
  induction 1 as [|e pre He _ IH]; simpl; [reflexivity|].
  destruct e; simpl in He; try exact IH; contradiction.
Qed.

Lemma first_search_none (l : list event) :
  Forall quiet_ev l -> first_search l = None.
Proof.
  intros H. rewrite <- (app_nil_r l). now rewrite first_search_quiet.
Qed.

Lemma try_except_prepend {A} (body body' : M A) (h : error -> M A) w s s' l :
  body w s = prepend l (body' w s') ->
  try_except body is_Exception h w s
  = prepend l (try_except body' is_Exception h w s').
Proof.
  intros Hb. unfold try_except. rewrite Hb.
  destruct (body' w s') as [[a|x|] s2 ev2]; unfold prepend; cbn [res st evs];
    try reflexivity.
  destruct (is_Exception x); cbn [res st evs]; [rewrite app_assoc|]; reflexivity.
Qed.

Lemma try_except_raised {A} (body : M A) (h : error -> M A) w s s1 l e :
  body w s = mkOut (Raised (Exception e)) s1 l ->
  try_except body is_Exception h w s = prepend l (h e w s1).
Proof. intros Hb. unfold try_except. rewrite Hb. reflexivity. Qed.

Lemma try_except_returns {A} (body : M A) (h : error -> M A) w s s1 l a :
  body w s = mkOut (Ok a) s1 l ->
  try_except body is_Exception h w s = mkOut (Ok a) s1 l.
Proof. intros Hb. unfold try_except. rewrite Hb. reflexivity. Qed.

Lemma try_finally_prepend {A} (body body' : M A) (final : M unit) w s s' l :
  body w s = prepend l (body' w s') ->
  try_finally body final w s = prepend l (try_finally body' final w s').
Proof.
  intros Hb. unfold try_finally. rewrite Hb.
  destruct (body' w s') as [[a|x|] s2 ev2]; unfold prepend; cbn [res st evs];
    try reflexivity;
    destruct (final w s2) as [[a'|x'|] s3 ev3]; cbn [res st evs];
    rewrite app_assoc; reflexivity.
Qed.

Lemma take_baseline_fails (L : M unit) w s e :
  w_search w (now s) = inl e ->
  (take_baseline ;; L) w s = mkOut (Raised (Exception e)) (tick s) [ImapSearch (inl e)].
Proof.
  intros Hs.
  cbv [take_baseline imap_search bind ask emit raise res st evs].
  rewrite Hs. reflexivity.
Qed.

Lemma take_baseline_then (L : M unit) w s all_messages :
  w_search w (now s) = inr all_messages ->
  (take_baseline ;; L) w s
  = prepend [ImapSearch (inr all_messages)]
      ((print "Monitoring from UID" ;; L) w
         (mkState (mkMonitor (running (self s)) (client (self s))
                     (baseline_uid all_messages))
            (emails_processed s) (S (now s)))).
Proof.
  intros Hs.
  cbv [take_baseline imap_search bind ask emit raise res st evs].
  rewrite Hs.
  cbv [set_last_uid set_self get_self print emit ret bind prepend res st evs
       self emails_processed now app].
  match goal with
  | |- context [L w ?x] => destruct (L w x) as [[a|x1|] s1 ev1]
  end; reflexivity.
Qed.

Section Frames.

Variables (L : M unit) (H : error -> M unit) (Fin : M unit).

Lemma guarded_no_client w s :
  client (self s) = None -> guarded L H Fin w s = try_finally (ret tt) Fin w s.
Proof.
  intros Hc. unfold guarded, try_finally.
  rewrite (try_except_returns _ H w s s [] tt); [reflexivity|].
  rewrite bind_get_self, Hc. reflexivity.
Qed.

Lemma guarded_search_fails w s c e :
  client (self s) = Some c -> w_search w (now s) = inl e ->
  guarded L H Fin w s
  = prepend [ImapSearch (inl e)] (try_finally (H e) Fin w (tick s)).
Proof.
  intros Hc Hs. unfold guarded.
  apply (try_finally_prepend _ (H e)).
  apply try_except_raised.
  rewrite bind_get_self, Hc. now apply take_baseline_fails.
Qed.

Lemma guarded_baseline w s c all_messages :
  client (self s) = Some c -> w_search w (now s) = inr all_messages ->
  guarded L H Fin w s =
  prepend [ImapSearch (inr all_messages)]
    (try_finally
       (try_except (print "Monitoring from UID" ;; L) is_Exception H) Fin w
       (mkState (mkMonitor (running (self s)) (client (self s))
                   (baseline_uid all_messages))
          (emails_processed s) (S (now s)))).
Proof.
  intros Hc Hs. unfold guarded.
  apply (try_finally_prepend _
           (try_except (print "Monitoring from UID" ;; L) is_Exception H)).
  apply try_except_prepend.
  pose proof (take_baseline_then L w s _ Hs) as Ht.
  rewrite bind_get_self.
  destruct (client (self s)); [exact Ht | discriminate].
Qed.

End Frames.

(** ** The shutdown path *)

Section ShutdownSpecs.

Variable Inv : Monitor -> Prop.
Variable E : event -> Prop.

Hypothesis E_quiet : forall e, quiet_ev e -> E e.
Hypothesis Inv_client :
  forall m c, Inv m -> Inv (mkMonitor (running m) c (last_uid m)).
Hypothesis Inv_running :
  forall m b, Inv m -> Inv (mkMonitor b (client m) (last_uid m)).

Lemma spec_set_running K F b : spec Inv E K F (set_running b).
Proof. intros w s HI. simpl. repeat split; auto. Qed.

Lemma critical_spec K F e :
  spec Inv E K F
    (print "Critical error in email monitor" ;;
     update_status false (Some (err_text e)) None).
Proof.
  apply spec_bind; [now apply spec_print|intros _].
  now apply update_status_spec.
Qed.

Lemma shutdown_spec K F :
  spec Inv E K F (disconnect ;; set_running false ;; update_status false None None).
Proof.
  apply spec_bind; [now apply disconnect_spec|intros _].
  apply spec_bind; [apply spec_set_running|intros _].
  now apply update_status_spec.
Qed.

End ShutdownSpecs.

(** ** The cursor *)

Section Cursor.

Variable c : uid.

Let Inv (m : Monitor) : Prop := (c <= last_uid m)%N.

Lemma above_quiet e : quiet_ev e -> above c e.
Proof. destruct e; simpl; tauto. Qed.

Lemma above_search r : above c (ImapSearch r).
Proof. exact Logic.I. Qed.

Lemma cursor_client m s : Inv m -> Inv (mkMonitor (running m) s (last_uid m)).
Proof. exact (fun H => H). Qed.

Lemma cursor_running m b : Inv m -> Inv (mkMonitor b (client m) (last_uid m)).
Proof. exact (fun H => H). Qed.

Lemma cursor_advance m u :
  Inv m -> Inv (mkMonitor (running m) (client m) (N.max (last_uid m) u)).
Proof. unfold Inv; simpl. lia. Qed.

Lemma above_new m u : Inv m -> (last_uid m < u)%N -> uid_ok (above c) u.
Proof.
  unfold Inv. intros Hm Hu. split; simpl.
  - intros _. lia.
  - intros entry _ He. exists u. split; [exact He | lia].
Qed.

Lemma cycle_cursor K F : spec Inv (above c) K F cycle.
Proof.
  apply cycle_spec;
    [ exact above_quiet | exact above_search | exact cursor_client
    | exact cursor_advance | exact above_new ].
Qed.

Lemma monitor_loop_cursor K fuel : spec Inv (above c) K True (monitor_loop fuel).
Proof.
  apply monitor_loop_spec;
    [ exact above_quiet | exact above_search | exact cursor_client
    | exact cursor_advance | exact above_new ].
Qed.

End Cursor.

(** ** The baseline *)

Lemma quiet_above c l : Forall quiet_ev l -> Forall (above c) l.
Proof. apply Forall_impl, above_quiet. Qed.

Lemma after_baseline_spec c fuel :
  spec (fun m => (c <= last_uid m)%N) (above c) (fun _ => True) True
    (try_finally
       (try_except
          (print "Monitoring from UID" ;;
           set_emails_processed 0 ;; monitor_loop fuel)
          is_Exception
          (fun e => print "Critical error in email monitor" ;;
                    update_status false (Some (err_text e)) None))
       (disconnect ;; set_running false ;; update_status false None None)).
Proof.
  apply spec_try_finally.
  - apply spec_try_except.
    + apply spec_bind; [apply spec_print, above_quiet | intros _].
      apply spec_bind; [apply spec_set_emails_processed | intros _].
      apply monitor_loop_cursor.
    + intros e. apply critical_spec, above_quiet.
  - apply shutdown_spec;
      [apply above_quiet | exact (cursor_client _) | exact (cursor_running _)].
Qed.

Lemma no_client_spec :
  spec (fun _ => True) quiet_ev (fun _ => True) True
    (try_finally (ret tt)
       (disconnect ;; set_running false ;; update_status false None None)).
Proof.
  apply spec_try_finally; [apply spec_ret|]. apply shutdown_spec; auto.
Qed.

Lemma monitored_trace fuel w s all_messages :
  first_search (evs (monitored fuel w s)) = Some (inr all_messages) ->
  Forall (above (baseline_uid all_messages)) (evs (monitored fuel w s))
  /\ (baseline_uid all_messages <= last_uid (self (st (monitored fuel w s))))%N.
Proof.
  change (monitored fuel) with
    (guarded (set_emails_processed 0 ;; monitor_loop fuel)
       (fun e => print "Critical error in email monitor" ;;
                 update_status false (Some (err_text e)) None)
       (disconnect ;; set_running false ;; update_status false None None)).
  destruct (client (self s)) as [c|] eqn:Hc.
  - destruct (w_search w (now s)) as [e|l] eqn:Hs.
    + rewrite (guarded_search_fails _ _ _ w s c e Hc Hs).
      unfold prepend; cbn [evs app first_search]. discriminate.
    + rewrite (guarded_baseline _ _ _ w s c l Hc Hs).
      unfold prepend; cbn [evs st app first_search].
      intros Hl. injection Hl as <-.
      match goal with
      | |- context [try_finally _ _ w ?x] =>
          destruct (after_baseline_spec (baseline_uid l) fuel w x (N.le_refl _))
            as (H1 & H2 & _)
      end.
      split; [constructor; [exact Logic.I | exact H2] | exact H1].
  - rewrite (guarded_no_client _ _ _ w s Hc).
    destruct (no_client_spec w s Logic.I) as (_ & Hq & _).
    rewrite (first_search_none _ Hq). discriminate.
Qed.

Lemma update_status_quiet a b c :
  spec (fun _ => True) quiet_ev (fun _ => False) False (update_status a b c).
Proof. apply update_status_spec. auto. Qed.

Lemma connect_quiet :
  spec (fun _ => True) quiet_ev (fun _ => False) False connect.
Proof. apply connect_spec; auto. Qed.

(** What [start] does before the [try] statement: either it returns
    without a search, or it enters the statement after quiet events. *)
Lemma start_shape fuel w s :
  running (self s) = false ->
  Forall quiet_ev (evs (start fuel w s))
  \/ exists pre s1,
       Forall quiet_ev pre
       /\ start fuel w s = prepend pre (monitored fuel w s1).
Proof.
  intros Hrun. unfold start. rewrite bind_get_self, Hrun.
  match goal with
  | |- context [bind (print ?l) ?k w ?x] =>
      rewrite (bind_ok (print l) k w x tt eq_refl)
  end.
  match goal with
  | |- context [bind (set_running ?b) ?k w ?x] =>
      rewrite (bind_ok (set_running b) k w x tt eq_refl)
  end.
  match goal with
  | |- context [bind (update_status ?a ?b ?c) ?k w ?x] =>
      destruct (spec_returns _ _ _ (update_status_quiet a b c) w x Logic.I)
        as ([] & Hr1 & Hq1 & _);
      rewrite (bind_ok _ k w x tt Hr1)
  end.
  match goal with
  | |- context [bind connect ?k w ?x] =>
      destruct (spec_returns _ _ _ connect_quiet w x Logic.I)
        as (ok & Hr2 & Hq2 & _);
      rewrite (bind_ok _ k w x ok Hr2)
  end.
  rewrite !prepend_prepend.
  match goal with
  | |- context [prepend ?l _] => assert (Hpre : Forall quiet_ev l)
  end.
  { repeat match goal with
           | |- Forall _ (_ ++ _) => apply Forall_app; split
           end; auto; cbn; repeat constructor. }
  destruct ok; cbn [negb].
  - right. eexists _, _. split; [exact Hpre | reflexivity].
  - left. cbn [prepend evs set_running bind get_self set_self res st].
    rewrite app_nil_r. exact Hpre.
Qed.

Lemma start_trace fuel w s all_messages :
  running (self s) = false ->
  first_search (evs (start fuel w s)) = Some (inr all_messages) ->
  Forall (above (baseline_uid all_messages)) (evs (start fuel w s))
  /\ (baseline_uid all_messages <= last_uid (self (st (start fuel w s))))%N.
Proof.
  intros Hrun Hfirst.
  destruct (start_shape fuel w s Hrun) as [Hq | (pre & s1 & Hq & Heq)].
  - rewrite (first_search_none _ Hq) in Hfirst. discriminate.
  - rewrite Heq in *. cbn [prepend evs st] in *.
    rewrite (first_search_quiet _ _ Hq) in Hfirst.
    destruct (monitored_trace fuel w s1 all_messages Hfirst) as [H1 H2].
    split; [|exact H2].
    apply Forall_app. split; [now apply quiet_above | exact H1].
Qed.

(** * The claims *)

(** ** Status reports *)

Lemma update_status_out is_running error processed w s :
  update_status is_running error processed w s
  = mkOut (Ok tt) (tick (tick s))
      [HttpPut (status_data is_running error processed (w_clock w (now s)))
         (w_put w (S (now s)));
       Print (status_line (w_put w (S (now s))))].
Proof.
  destruct (w_put w (S (now s))) as [code|e] eqn:Hput;
    unfold update_status; run; cbn [now]; rewrite Hput; run.
  - cbn [status_line]. destruct (Nat.eqb code 200); reflexivity.
  - reflexivity.
Qed.

(** C8. Whatever the HTTP PUT does (answers 200, answers another status,
    raises), [update_status] returns normally and leaves the monitor (its
    running flag, its session, its cursor) and the processed count as they
    were; it emits the PUT and one console line. *)
Theorem update_status_never_raises
    (is_running : bool) (error : option string) (processed : option nat)
    (w : World) (s : State) :
  let o := update_status is_running error processed w s in
  res o = Ok tt
  /\ self (st o) = self s
  /\ emails_processed (st o) = emails_processed s
  /\ exists data line,
       evs o = [HttpPut data (w_put w (S (now s))); Print line]
       /\ isRunning data = is_running.
Proof.
  cbv zeta. rewrite update_status_out. cbn. repeat split; eauto.
Qed.

(** C10. [stop] on a monitor whose running flag is false prints one line and
    does nothing else: no status report, no change of state.  The CLI
    command [stop] builds a fresh monitor, whose flag is false, so that no
    run of it sends a status report. *)
Theorem stop_when_not_running (w : World) (s : State) :
  (running (self s) = false ->
   stop w s = mkOut (Ok tt) s [Print "Monitor is not running"])
  /\ (forall prog cfg fuel,
        Forall (fun e => ~ is_put e) (evs (main [prog; "stop"] cfg fuel w s))).
Proof.
  split.
  - intros Hrun. unfold stop. rewrite bind_get_self, Hrun. reflexivity.
  - intros prog cfg fuel.
    unfold main, EmailMonitor, usage, sys_exit, stop; simpl.
    destruct (negb (opt_truthy (EMAIL_USER cfg))
              || negb (opt_truthy (EMAIL_PASSWORD cfg))); simpl;
      repeat constructor; simpl; tauto.
Qed.

Lemma stop_when_not_running_witness :
  stop calm initial_state
  = mkOut (Ok tt) initial_state [Print "Monitor is not running"].
Proof. exact (proj1 (stop_when_not_running calm initial_state) eq_refl). Defined.

(** ** Attachments *)


(** C9. A part whose sanitised name is empty, a dot or two dots is never
    written, under no name: its extension, taken from the sanitised name
    before the fallback name is substituted, is empty and so outside the
    allow-list, and the part is skipped. *)
Theorem fallback_name_never_written
    (part : Part) (filename : string) (attachments : list string)
    (w : World) (s : State) :
  part_filename part = Some filename ->
  sanitize filename = EmptyString \/ sanitize filename = "."
    \/ sanitize filename = ".." ->
  let o := attachment_step part attachments w s in
  file_ext_of (sanitize filename) = EmptyString
  /\ str_in (file_ext_of (sanitize filename)) allowed_extensions = false
  /\ Forall (fun e => ~ is_write e) (evs o)
  /\ res o = Ok attachments.
Proof.
  intros Hf Hs. cbv zeta.
  assert (Hext : file_ext_of (sanitize filename) = EmptyString)
    by (destruct Hs as [H|[H|H]]; rewrite H; reflexivity).
  pose proof (fallback_has_no_allowed_ext _ Hs) as Hno.
  unfold attachment_step. rewrite Hf.
  destruct (Str.truthy filename); cbn [negb].
  - rewrite Hno. cbn. repeat split; auto; repeat constructor; simpl; tauto.
  - cbn. repeat split; auto.
Qed.

Lemma fallback_name_never_written_witness :
  Forall (fun e => ~ is_write e)
    (evs (attachment_step dots_part [] calm initial_state)).
Proof.
  exact (proj1 (proj2 (proj2
    (fallback_name_never_written dots_part ".." [] calm initial_state
       eq_refl (or_intror (or_introl eq_refl)))))).
Defined.



(** ** One identifier *)

Lemma yields_bind {A B} (m : M A) (f : A -> M B) w s a mon b mon' :
  yields m w s a mon -> yields (f a) w (st (m w s)) b mon' ->
  yields (bind m f) w s b mon'.
Proof.
  intros [Hr _] [Hr' Hs']. unfold yields. rewrite (bind_ok _ _ _ _ _ Hr).
  unfold prepend; cbn [res st]. auto.
Qed.

Lemma yields_get_self {B} (f : Monitor -> M B) w s b mon :
  yields (f (self s)) w s b mon -> yields (bind get_self f) w s b mon.
Proof. unfold yields. now rewrite bind_get_self. Qed.

Lemma yields_try_except {A} (body : M A) (h : error -> M A) w s a mon :
  yields body w s a mon -> yields (try_except body is_Exception h) w s a mon.
Proof.
  intros [Hr Hs]. unfold yields, try_except. rewrite Hr. auto.
Qed.

(** A total computation that keeps the monitor yields a value. *)
Lemma kept_yields {A} (m : M A) w s :
  spec (eq (self s)) (fun _ => True) (fun _ => False) False m ->
  exists a, yields m w s a (self s).
Proof.
  intros H. destruct (spec_returns _ _ m H w s eq_refl) as (a & Hr & _ & Hs).
  exists a. split; [exact Hr | now symmetry].
Qed.

Lemma process_new_email_yields u msg w s :
  exists ok, yields (process_new_email u msg) w s ok (self s).
Proof.
  apply kept_yields, process_new_email_spec; [auto|].
  split; intros; exact Logic.I.
Qed.

(** Lines 273-274. *)
Lemma count_yields (ok : bool) w s :
  yields
    (when ok
       (n <- get_emails_processed ;;
        set_emails_processed (S n) ;;
        update_status true None (Some (S n)))) w s tt (self s).
Proof.
  destruct (kept_yields
    (when ok
       (n <- get_emails_processed ;;
        set_emails_processed (S n) ;;
        update_status true None (Some (S n)))) w s) as ([] & H); [|exact H].
  apply spec_when, spec_bind; [apply spec_get_emails_processed | intros n].
  apply spec_bind; [apply spec_set_emails_processed | intros _].
  apply update_status_spec. auto.
Qed.

Lemma imap_fetch_out u w s :
  imap_fetch u w s
  = mkOut (match w_fetch w (now s) u with
           | FetchRaises e => Raised (Exception e)
           | FetchNotBytes => Ok None
           | FetchBytes msg => Ok (Some msg)
           end) (tick s) [ImapFetch u (w_fetch w (now s) u)].
Proof.
  destruct (w_fetch w (now s) u) eqn:Hf; unfold imap_fetch; run;
    rewrite Hf; reflexivity.
Qed.

Lemma advance_yields u w s :
  yields (m <- get_self ;; set_last_uid (N.max (last_uid m) u) ;; ret Next) w s
    Next
    (mkMonitor (running (self s)) (client (self s)) (N.max (last_uid (self s)) u)).
Proof. split; reflexivity. Qed.

(** A fetched message advances the cursor, whatever became of it. *)
Lemma process_uid_fetched u msg w s c :
  client (self s) = Some c ->
  w_fetch w (now s) u = FetchBytes msg ->
  yields (process_uid u) w s Next
    (mkMonitor (running (self s)) (client (self s)) (N.max (last_uid (self s)) u)).
Proof.
  intros Hc Hf. unfold process_uid.
  apply yields_try_except, yields_get_self. rewrite Hc.
  eapply yields_bind.
  { unfold yields. rewrite imap_fetch_out, Hf. split; reflexivity. }
  rewrite imap_fetch_out, Hf. cbn [st].
  destruct (process_new_email_yields u msg w (tick s)) as [ok Hok].
  eapply yields_bind; [exact Hok|].
  destruct (count_yields ok w (st (process_new_email u msg w (tick s))))
    as [Hr2 Hs2].
  eapply yields_bind; [split; [exact Hr2 | exact Hs2]|].
  match goal with
  | |- yields _ w ?x _ _ => pose proof (advance_yields u w x) as Ha
  end.
  rewrite Hs2, (proj2 Hok) in Ha. cbn [tick self] in Ha.
  rewrite Hc in Ha. exact Ha.
Qed.

(** A message that could not be fetched leaves the cursor where it is. *)
Lemma process_uid_not_fetched u w s c :
  client (self s) = Some c ->
  (forall msg, w_fetch w (now s) u <> FetchBytes msg) ->
  yields (process_uid u) w s Next (self s).
Proof.
  intros Hc Hf. unfold yields, process_uid.
  destruct (w_fetch w (now s) u) as [e| |msg] eqn:Hw;
    [ | | now destruct (Hf msg)];
    run; rewrite Hc; run; rewrite Hw; run; split; reflexivity.
Qed.

(** C1, as the code has it.  The cursor moves to [max(cursor, id)] as soon
    as the message was fetched and [process_new_email] has returned,
    whether the hand-off succeeded or not, and the identifier is no
    candidate of a later poll.  The cursor stays where it is only when the
    fetch raises or yields no bytes object, and then the identifier, if it
    was above the cursor, is still a candidate. *)
Theorem cursor_advances_after_fetch (u : uid) (w : World) (s : State) (c : session) :
  client (self s) = Some c ->
  let o := process_uid u w s in
  res o = Ok Next
  /\ match w_fetch w (now s) u with
     | FetchBytes _ =>
         self (st o)
         = mkMonitor (running (self s)) (client (self s))
             (N.max (last_uid (self s)) u)
         /\ forall all_messages,
              ~ In u (new_messages all_messages (last_uid (self (st o))))
     | _ =>
         self (st o) = self s
         /\ forall all_messages,
              In u all_messages -> (last_uid (self s) < u)%N ->
              In u (new_messages all_messages (last_uid (self (st o))))
     end.
Proof.
  intros Hc. cbv zeta.
  destruct (w_fetch w (now s) u) as [e| |msg] eqn:Hf.
  - destruct (process_uid_not_fetched u w s c Hc) as [Hr Hs];
      [rewrite Hf; discriminate|].
    repeat split; auto. intros l Hin Hlt. rewrite Hs.
    apply new_messages_In. auto.
  - destruct (process_uid_not_fetched u w s c Hc) as [Hr Hs];
      [rewrite Hf; discriminate|].
    repeat split; auto. intros l Hin Hlt. rewrite Hs.
    apply new_messages_In. auto.
  - destruct (process_uid_fetched u msg w s c Hc Hf) as [Hr Hs].
    repeat split; auto. intros l Hin.
    apply new_messages_In in Hin as [_ Hlt]. rewrite Hs in Hlt.
    cbn [last_uid] in Hlt. lia.
Qed.

Lemma cursor_advances_after_fetch_witness :
  res (process_uid 11%N rejecting watching) = Ok Next.
Proof.
  exact (proj1 (cursor_advances_after_fetch 11%N rejecting watching 0 eq_refl)).
Defined.

(** C1 fails as stated: the API sink answers 500 to the hand-off of
    message 11, and the cursor moves to 11 all the same; the next poll
    finds nothing new and fetches nothing. *)
Lemma rejected_handoff_advances_cursor :
  let o := process_uid 11%N rejecting watching in
  evs o
  = [ImapFetch 11%N (FetchBytes text_message);
     Print "Processing Email";
     HttpPost
       (mkEntry "11" "field@example.org" "Well 7" "see attached" [] "pending")
       (Response 500);
     Print "Failed to save email";
     Print "Failed to save email UID"]
  /\ last_uid (self watching) = 10%N
  /\ last_uid (self (st o)) = 11%N
  /\ emails_processed (st o) = 0
  /\ new_messages [10%N; 11%N] (last_uid (self (st o))) = []
  /\ evs (cycle rejecting (st o))
     = ImapNoop None :: ImapSearch (inr [10%N; 11%N])
       :: Print "No new emails found" :: repeat (Sleep 1) 30.
Proof.
  vm_compute. repeat split.
Qed.

(** ** The cursor through a run *)

Lemma process_uid_monotone u w s :
  (last_uid (self s) <= last_uid (self (st (process_uid u w s))))%N.
Proof.
  assert (H : spec (fun m => (last_uid (self s) <= last_uid m)%N)
                (fun _ => True) (fun _ => True) True (process_uid u)).
  { apply process_uid_spec; auto.
    - intros m x Hm. cbn. lia.
    - split; intros; exact Logic.I. }
  exact (proj1 (H w s (N.le_refl _))).
Qed.

Lemma fold_max_In (l : list uid) (a : uid) : In (fold_left N.max l a) (a :: l).
Proof.
  revert a. induction l as [|x l IH]; intros a; simpl; [now left|].
  destruct (IH (N.max a x)) as [H|H]; [|now right; right].
  rewrite <- H.
  destruct (N.max_spec a x) as [[_ Hm]|[_ Hm]]; rewrite Hm;
    [right; left | left]; reflexivity.
Qed.

Lemma baseline_uid_In (all_messages : list uid) :
  all_messages <> [] -> In (baseline_uid all_messages) all_messages.
Proof.
  destruct all_messages as [|x l]; [congruence|]. intros _. apply fold_max_In.
Qed.

(** C2. In a run the cursor never decreases, and no identifier at or
    below the cursor is selected again: every advance of line 276 keeps or
    raises it; the filter of line 253 selects identifiers above it only;
    from any state of the loop on, through any number of cycles, the
    cursor ends at or above where it stood and every identifier fetched or
    handed off lies above where it stood; and once [start] has taken its
    baseline the cursor stays at or above the baseline. *)
Theorem cursor_never_decreases (w : World) (s : State) :
  (forall u,
     (last_uid (self s) <= last_uid (self (st (process_uid u w s))))%N)
  /\ (forall all_messages u,
        In u (new_messages all_messages (last_uid (self s))) ->
        (last_uid (self s) < u)%N)
  /\ ((last_uid (self s) <= last_uid (self (st (cycle w s))))%N
      /\ Forall (above (last_uid (self s))) (evs (cycle w s)))
  /\ (forall fuel,
        (last_uid (self s) <= last_uid (self (st (monitor_loop fuel w s))))%N
        /\ Forall (above (last_uid (self s))) (evs (monitor_loop fuel w s)))
  /\ (forall fuel all_messages,
        running (self s) = false ->
        first_search (evs (start fuel w s)) = Some (inr all_messages) ->
        (last_uid (self s) = 0%N -> (last_uid (self s) <= baseline_uid all_messages)%N)
        /\ (baseline_uid all_messages <= last_uid (self (st (start fuel w s))))%N).
Proof.
  split; [|split; [|split; [|split]]].
  - intros u. apply process_uid_monotone.
  - intros l u Hu. now apply new_messages_In in Hu.
  - destruct (cycle_cursor (last_uid (self s)) (fun _ => True) True w s
                (N.le_refl _)) as (H1 & H2 & _). auto.
  - intros fuel.
    destruct (monitor_loop_cursor (last_uid (self s)) (fun _ => True) fuel w s
                (N.le_refl _)) as (H1 & H2 & _). auto.
  - intros fuel l Hrun Hfirst. split; [lia|].
    exact (proj2 (start_trace fuel w s l Hrun Hfirst)).
Qed.

Lemma cursor_never_decreases_witness :
  (10 < 11)%N
  /\ (11 <= last_uid (self (st (start 1 calm initial_state))))%N.
Proof.
  pose proof (cursor_never_decreases calm watching) as Hw.
  pose proof (cursor_never_decreases calm initial_state) as Hi.
  split.
  - apply (proj1 (proj2 Hw) [10%N; 11%N] 11%N). vm_compute. auto.
  - exact (proj2 (proj2 (proj2 (proj2 (proj2 Hi))) 1 [10%N; 11%N]
                   eq_refl eq_refl)).
Defined.

(** C3. The baseline of [start] sets the cursor to the greatest of the
    identifiers found in the mailbox, or to 0 when there are none; and no
    message found there is handed to the API sink in that run: no POST of
    the run carries the identifier of one of them. *)
Theorem baseline_excludes_existing (w : World) (s : State) :
  (forall all_messages,
     w_search w (now s) = inr all_messages ->
     let o := take_baseline w s in
     res o = Ok tt
     /\ last_uid (self (st o)) = baseline_uid all_messages
     /\ (all_messages = [] -> baseline_uid all_messages = 0%N)
     /\ (all_messages <> [] -> In (baseline_uid all_messages) all_messages)
     /\ (forall u, In u all_messages -> (u <= baseline_uid all_messages)%N))
  /\ (forall fuel all_messages,
        running (self s) = false ->
        first_search (evs (start fuel w s)) = Some (inr all_messages) ->
        forall entry r u,
          In (HttpPost entry r) (evs (start fuel w s)) ->
          In u all_messages ->
          e_uid entry <> Str.of_N u).
Proof.
  split.
  - intros l Hs. cbv zeta. unfold take_baseline. run. rewrite Hs. run.
    repeat split.
    + intros ->. reflexivity.
    + apply baseline_uid_In.
    + apply baseline_uid_upper.
  - intros fuel l Hrun Hfirst entry r u Hpost Hu Heq.
    destruct (start_trace fuel w s l Hrun Hfirst) as [Hall _].
    rewrite Forall_forall in Hall. specialize (Hall _ Hpost).
    destruct Hall as (u' & Hu' & Hlt).
    rewrite Hu' in Heq. apply str_of_N_inj in Heq. subst u'.
    pose proof (baseline_uid_upper l u Hu). lia.
Qed.

Lemma baseline_excludes_existing_witness :
  last_uid (self (st (take_baseline calm initial_state))) = 11%N
  /\ forall entry r u,
       In (HttpPost entry r) (evs (start 1 calm initial_state)) ->
       In u [10%N; 11%N] -> e_uid entry <> Str.of_N u.
Proof.
  pose proof (baseline_excludes_existing calm initial_state) as [H1 H2].
  split.
  - exact (proj1 (proj2 (H1 [10%N; 11%N] eq_refl))).
  - exact (H2 1 [10%N; 11%N] eq_refl eq_refl).
Defined.

(** ** Errors in a cycle *)

Lemma poll_noop_raises w s c e :
  client (self s) = Some c -> w_noop w (now s) = Some e ->
  poll w s = mkOut (Raised (Exception e)) (tick s) [ImapNoop (Some e)].
Proof.
  intros Hc Hn. unfold poll. run. rewrite Hc. cbn [is_some]. run.
  rewrite Hn. reflexivity.
Qed.

Lemma poll_search_raises w s c e :
  client (self s) = Some c -> w_noop w (now s) = None ->
  w_search w (S (now s)) = inl e ->
  poll w s
  = mkOut (Raised (Exception e)) (tick (tick s))
      [ImapNoop None; ImapSearch (inl e)].
Proof.
  intros Hc Hn Hs. unfold poll. run. rewrite Hc. cbn [is_some]. run.
  rewrite Hn. run. rewrite Hc. run. rewrite Hs. reflexivity.
Qed.

Lemma disconnect_out w s c :
  client (self s) = Some c ->
  disconnect w s
  = mkOut (Ok tt)
      (mkState (mkMonitor (running (self s)) None (last_uid (self s)))
         (emails_processed s) (S (now s)))
      [ImapLogout (w_logout w (now s)); Print (logout_line (w_logout w (now s)))].
Proof.
  intros Hc. destruct (w_logout w (now s)) as [e|] eqn:Hl;
    unfold disconnect; run; rewrite Hc; run; rewrite Hl; reflexivity.
Qed.

Lemma on_error_out e w s :
  on_error e w s
  = mkOut (Ok tt) (tick (tick s))
      [Print "Error in monitoring loop";
       HttpPut (status_data false (Some (err_text e)) None (w_clock w (now s)))
         (w_put w (S (now s)));
       Print (status_line (w_put w (S (now s))));
       Sleep 10].
Proof.
  unfold on_error.
  rewrite (bind_ok (print _) _ w s tt eq_refl). cbn [print emit st evs].
  rewrite (bind_ok (update_status _ _ _) _ w s tt)
    by (rewrite update_status_out; reflexivity).
  rewrite update_status_out. reflexivity.
Qed.

Lemma connect_returns w s :
  exists ok, res (connect w s) = Ok ok
             /\ running (self (st (connect w s))) = running (self s).
Proof.
  destruct (spec_returns (fun m => running m = running (self s)) (fun _ => True)
              connect) with (w := w) (s := s) as (ok & Hr & _ & Hs); eauto.
  apply connect_spec; auto.
Qed.

Lemma try_except_evs {A} (body : M A) (h : error -> M A) w s :
  exists rest,
    evs (try_except body is_Exception h w s) = (evs (body w s) ++ rest)%list.
Proof.
  unfold try_except. destruct (res (body w s)) as [a|x|].
  - exists []. now rewrite app_nil_r.
  - destruct (is_Exception x); cbn [evs]; [eauto|].
    exists []. now rewrite app_nil_r.
  - exists []. now rewrite app_nil_r.
Qed.

Lemma connect_opens w s :
  exists rest, evs (connect w s) = ImapOpen (w_open w (now s)) :: rest.
Proof.
  unfold connect.
  match goal with
  | |- context [try_except ?b _ ?h w s] =>
      destruct (try_except_evs b h w s) as [rest ->]
  end.
  rewrite (bind_ok get_now _ w s (now s) eq_refl). cbn [get_now st evs].
  rewrite (bind_ok (ask w_open) _ w s (w_open w (now s)) eq_refl).
  cbn [ask st evs].
  rewrite (bind_ok (emit _) _ w _ tt eq_refl). cbn [emit evs prepend app].
  eexists. reflexivity.
Qed.

Lemma on_transient_out w s c :
  client (self s) = Some c ->
  let s2 := mkState (mkMonitor (running (self s)) None (last_uid (self s)))
              (emails_processed s) (S (now s)) in
  exists ok,
    res (connect w s2) = Ok ok
    /\ on_transient w s
       = mkOut (Ok tt) (st (connect w s2))
           ([Print "Transient IMAP/SSL error - reconnecting";
             ImapLogout (w_logout w (now s));
             Print (logout_line (w_logout w (now s)));
             Sleep 5]
            ++ evs (connect w s2) ++ (if ok then [] else [Sleep 10])).
Proof.
  intros Hc s2. destruct (connect_returns w s2) as (ok & Hr & _).
  exists ok. split; [exact Hr|]. unfold on_transient.
  rewrite (bind_ok (print _) _ w s tt eq_refl). cbn [print emit st evs].
  rewrite (bind_ok disconnect _ w s tt)
    by (rewrite (disconnect_out w s c Hc); reflexivity).
  rewrite (disconnect_out w s c Hc). cbn [st evs]. fold s2.
  rewrite (bind_ok (sleep 5) _ w s2 tt eq_refl). cbn [sleep emit st evs].
  rewrite (bind_ok connect _ w s2 ok Hr).
  destruct ok; reflexivity.
Qed.

Lemma cycle_total w s :
  res (cycle w s) = Ok tt /\ running (self (st (cycle w s))) = running (self s).
Proof.
  destruct (spec_returns (fun m => running m = running (self s)) (fun _ => True)
              cycle) with (w := w) (s := s) as ([] & Hr & _ & Hs); auto.
  apply cycle_spec; auto. intros m u _ _. split; intros; exact Logic.I.
Qed.

(** After a cycle the loop takes its next turn. *)
Lemma monitor_loop_next fuel w s :
  running (self s) = true ->
  monitor_loop (S fuel) w s
  = prepend (evs (cycle w s)) (monitor_loop fuel w (st (cycle w s))).
Proof.
  intros Hrun. cbn [monitor_loop]. rewrite bind_get_self, Hrun. cbn [negb].
  apply (bind_ok cycle (fun _ => monitor_loop fuel) w s tt), cycle_total.
Qed.

Lemma poll_raises w s c e :
  client (self s) = Some c -> poll_fails w s e ->
  exists pre s1,
    poll w s = mkOut (Raised (Exception e)) s1 pre
    /\ self s1 = self s /\ failed_poll e pre.
Proof.
  intros Hc [Hn|[Hn Hs]].
  - exists [ImapNoop (Some e)], (tick s).
    rewrite (poll_noop_raises w s c e Hc Hn). repeat split. now left.
  - exists [ImapNoop None; ImapSearch (inl e)], (tick (tick s)).
    rewrite (poll_search_raises w s c e Hc Hn Hs). repeat split. now right.
Qed.

(** C6, as the code has it.  When the keep-alive or the search of a cycle
    raises an exception that is not transient, the monitor reports
    [isRunning=false] with the error text, waits 10 seconds and goes on:
    the cycle returns, the monitor is as it was with its running flag set,
    and the loop takes its next turn.  It does not leave the loop. *)
Theorem nontransient_error_reported_loop_goes_on
    (w : World) (s : State) (c : session) (e : error) :
  client (self s) = Some c ->
  is_transient (err_class e) = false ->
  poll_fails w s e ->
  let o := cycle w s in
  res o = Ok tt
  /\ self (st o) = self s
  /\ (exists pre t r,
        failed_poll e pre
        /\ evs o
           = (pre ++ [Print "Error in monitoring loop";
                      HttpPut (status_data false (Some (err_text e)) None t) r;
                      Print (status_line r);
                      Sleep 10])%list)
  /\ (running (self s) = true ->
      forall fuel,
        monitor_loop (S fuel) w s = prepend (evs o) (monitor_loop fuel w (st o))).
Proof.
  intros Hc Ht Hfail. cbv zeta.
  destruct (poll_raises w s c e Hc Hfail) as (pre & s1 & Hpoll & Hs1 & Hpre).
  assert (Hcycle : cycle w s = prepend pre (on_error e w s1)).
  { unfold cycle. rewrite (try_except_raised _ _ w s s1 pre e Hpoll).
    now rewrite Ht. }
  split; [|split; [|split]].
  - rewrite Hcycle, on_error_out. reflexivity.
  - rewrite Hcycle, on_error_out. exact Hs1.
  - exists pre, (w_clock w (now s1)), (w_put w (S (now s1))).
    split; [exact Hpre|]. rewrite Hcycle, on_error_out. reflexivity.
  - intros Hrun fuel. now apply monitor_loop_next.
Qed.

Lemma nontransient_error_reported_loop_goes_on_witness :
  res (cycle broken_noop watching) = Ok tt.
Proof.
  exact (proj1 (nontransient_error_reported_loop_goes_on broken_noop watching 0
                  (mkError OtherError "NOOP failed")
                  eq_refl eq_refl (or_introl eq_refl))).
Defined.

(** C6 fails as stated: the keep-alive raises an exception that is not
    transient in two cycles in a row; after each the monitor reports and
    waits, and after both it is still in its loop, its running flag set
    and its session open, with no logout and no final report. *)
Lemma nontransient_error_does_not_end_loop :
  let o := monitor_loop 2 broken_noop watching in
  res o = Fuel
  /\ self (st o) = self watching
  /\ evs o
     = [ImapNoop (Some (mkError OtherError "NOOP failed"));
        Print "Error in monitoring loop";
        HttpPut (mkStatus false (Some "NOOP failed") None None (Some 0%Z))
          (Response 200);
        Print "Status updated";
        Sleep 10;
        ImapNoop (Some (mkError OtherError "NOOP failed"));
        Print "Error in monitoring loop";
        HttpPut (mkStatus false (Some "NOOP failed") None None (Some 0%Z))
          (Response 200);
        Print "Status updated";
        Sleep 10].
Proof.
  vm_compute. repeat split.
Qed.

(** * Further properties of the monitor *)

(** ** The hand-off *)

Lemma save_email_to_api_out entry w s :
  save_email_to_api entry w s
  = mkOut (Ok (handoff_ok (w_post w (now s)))) (tick s)
      [HttpPost entry (w_post w (now s));
       Print (match w_post w (now s) with
              | Response code =>
                  if Nat.eqb code 201 then "Email saved to database"
                  else "Failed to save email"
              | HttpRaises _ => "Error saving email to API"
              end)].
Proof.
  destruct (w_post w (now s)) as [code|e] eqn:Hp;
    unfold save_email_to_api; run; rewrite Hp; run.
  - cbn [handoff_ok]. destruct (Nat.eqb code 201); reflexivity.
  - reflexivity.
Qed.

(** X1. [save_email_to_api] never raises: it returns [True] exactly when
    the POST is answered with status 201, and [False] for every other
    status and for every exception of the request; it makes the one POST
    and leaves the monitor as it was. *)
Theorem save_email_to_api_true_iff_201 (entry : Entry) (w : World) (s : State) :
  let o := save_email_to_api entry w s in
  exists ok,
    res o = Ok ok
    /\ (ok = true <-> w_post w (now s) = Response 201)
    /\ self (st o) = self s
    /\ emails_processed (st o) = emails_processed s
    /\ posted (evs o) = [(entry, w_post w (now s))].
Proof.
  cbv zeta. rewrite save_email_to_api_out. cbn [res st evs posted tick self emails_processed].
  eexists. repeat split.
  - destruct (w_post w (now s)) as [code|e]; cbn [handoff_ok]; [|discriminate].
    intros H. apply Nat.eqb_eq in H. now subst.
  - intros ->. reflexivity.
Qed.

(** ** The attachments of a message *)

Lemma bind_raised {A B} (m : M A) (f : A -> M B) w s x :
  res (m w s) = Raised x ->
  bind m f w s = mkOut (Raised x) (st (m w s)) (evs (m w s)).
Proof. intros H. unfold bind. now rewrite H. Qed.

Lemma stored_app_l name l1 l2 : stored name l1 -> stored name (l1 ++ l2).
Proof. intros [p Hp]. exists p. apply in_or_app. now left. Qed.

Lemma stored_app_r name l1 l2 : stored name l2 -> stored name (l1 ++ l2).
Proof. intros [p Hp]. exists p. apply in_or_app. now right. Qed.

Ltac each_event :=
  repeat first
    [ apply Forall_nil
    | apply Forall_cons; [first [now left | now right | exact Logic.I]|] ].

(** What one part can do: nothing, a skip, a [TypeError], or one write. *)
Lemma attachment_step_frame part attachments w s :
  let o := attachment_step part attachments w s in
  self (st o) = self s
  /\ emails_processed (st o) = emails_processed s
  /\ Forall (fun e => is_print e \/ is_write e) (evs o)
  /\ match res o with
     | Ok attachments' =>
         attachments' = attachments
         \/ exists filename,
              part_filename part = Some filename
              /\ attachments' = (attachments ++ [sanitize filename])%list
              /\ str_in (file_ext_of (sanitize filename)) allowed_extensions = true
              /\ stored (sanitize filename) (evs o)
     | Raised x => only_exceptions x
     | Fuel => False
     end.
Proof.
  cbv zeta. unfold attachment_step.
  destruct (part_filename part) as [filename|]; [|cbn; auto].
  destruct (Str.truthy filename); cbn [negb]; [|cbn; auto].
  destruct (str_in (file_ext_of (sanitize filename)) allowed_extensions) eqn:Hext;
    cbn [negb]; [|cbn; repeat split; auto; each_event].
  rewrite (allowed_ext_keeps_name _ Hext).
  destruct (part_payload part) as [payload|]; [|cbn; auto].
  destruct (size_limit <? Z.of_nat (List.length payload))%Z;
    [cbn; repeat split; auto; each_event|].
  destruct (w_write w (now s)) as [e|] eqn:Hw; run; rewrite Hw; run.
  - repeat split; auto. each_event.
  - destruct (negb (String.eqb (sanitize filename) filename)); run;
      (split; [reflexivity|]; split; [reflexivity|]; split; [each_event|];
       right; exists filename; repeat split; auto;
       exists payload; now left).
Qed.

Lemma attachment_loop_frame parts :
  forall attachments w s,
  let o := attachment_loop parts attachments w s in
  self (st o) = self s
  /\ emails_processed (st o) = emails_processed s
  /\ Forall (fun e => is_print e \/ is_write e) (evs o)
  /\ match res o with
     | Ok attachments' =>
         forall name, In name attachments' ->
           In name attachments
           \/ (stored name (evs o)
               /\ str_in (file_ext_of name) allowed_extensions = true
               /\ exists part filename,
                    In part parts /\ part_filename part = Some filename
                    /\ name = sanitize filename)
     | Raised x => only_exceptions x
     | Fuel => False
     end.
Proof.
  induction parts as [|part rest IH]; intros attachments w s; cbv zeta.
  - cbn. repeat split; auto.
  - cbn [attachment_loop].
    destruct (attachment_step_frame part attachments w s) as (Hs & He & Hev & Hr).
    destruct (res (attachment_step part attachments w s)) as [a|x|] eqn:Hres;
      [|rewrite (bind_raised _ _ w s x Hres); cbn; auto | contradiction].
    rewrite (bind_ok _ _ w s a Hres). unfold prepend; cbn [res st evs].
    destruct (IH a w (st (attachment_step part attachments w s)))
      as (Hs' & He' & Hev' & Hr').
    repeat split; try congruence; [apply Forall_app; auto|].
    destruct (res (attachment_loop rest a w _)) as [a'|x'|]; auto.
    intros name Hin. destruct (Hr' name Hin) as [Ha|(Hst & Hal & p & f & Hp & Hf & Hn)].
    + destruct Hr as [->|(f & Hf & -> & Hal & Hst)]; [now left|].
      apply in_app_or in Ha as [Ha|[<-|[]]]; [now left|].
      right. repeat split; [now apply stored_app_l | exact Hal|].
      exists part, f. repeat split; auto. now left.
    + right. repeat split; [now apply stored_app_r | exact Hal|].
      exists p, f. repeat split; auto. now right.
Qed.

Lemma posted_app l1 l2 : posted (l1 ++ l2) = (posted l1 ++ posted l2)%list.
Proof.
  induction l1 as [|e l1 IH]; [reflexivity|].
  destruct e; cbn; rewrite ?IH; reflexivity.
Qed.

Lemma posted_none l :
  Forall (fun e => is_print e \/ is_write e) l -> posted l = [].
Proof.
  induction 1 as [|e l He _ IH]; [reflexivity|].
  destruct e; cbn in *; try exact IH; destruct He as [[]|[]].
Qed.

Lemma attachments_of_frame msg w s :
  let o := attachments_of msg w s in
  self (st o) = self s
  /\ emails_processed (st o) = emails_processed s
  /\ Forall (fun e => is_print e \/ is_write e) (evs o)
  /\ match res o with
     | Ok attachments =>
         forall name, In name attachments ->
           stored name (evs o)
           /\ str_in (file_ext_of name) allowed_extensions = true
           /\ exists part filename,
                In part (walk msg) /\ part_filename part = Some filename
                /\ name = sanitize filename
     | Raised x => only_exceptions x
     | Fuel => False
     end.
Proof.
  cbv zeta. unfold attachments_of. destruct (is_multipart msg).
  - destruct (attachment_loop_frame (walk msg) [] w s) as (H1 & H2 & H3 & H4).
    repeat split; auto.
    destruct (res (attachment_loop (walk msg) [] w s)); auto.
    intros n Hin. destruct (H4 n Hin) as [[]|H]. exact H.
  - cbn. repeat split; auto; try (intros ? []); try contradiction.
Qed.

(** Lines 177-184, once the attachments are known. *)
Lemma hand_over_out (entry : Entry) w s :
  (print "Processing Email" ;;
   ok <- save_email_to_api entry ;;
   if ok then ret true else print "Failed to save email UID" ;; ret false) w s
  = mkOut (Ok (handoff_ok (w_post w (now s)))) (tick s)
      (Print "Processing Email"
       :: evs (save_email_to_api entry w s)
       ++ (if handoff_ok (w_post w (now s)) then []
           else [Print "Failed to save email UID"])).
Proof.
  rewrite (bind_ok (print _) _ w s tt eq_refl). cbn [print emit st evs].
  rewrite (bind_ok (save_email_to_api entry) _ w s (handoff_ok (w_post w (now s))))
    by (rewrite save_email_to_api_out; reflexivity).
  rewrite save_email_to_api_out. cbn [st evs prepend].
  destruct (handoff_ok (w_post w (now s))); reflexivity.
Qed.

(** [process_new_email], by what the attachments did. *)
Lemma process_new_email_cases u msg w s :
  let oa := attachments_of msg w s in
  (exists attachments,
     res oa = Ok attachments
     /\ process_new_email u msg w s
        = mkOut (Ok (handoff_ok (w_post w (now (st oa))))) (tick (st oa))
            (evs oa
             ++ Print "Processing Email"
                :: evs (save_email_to_api (entry_of u msg attachments) w (st oa))
                ++ (if handoff_ok (w_post w (now (st oa))) then []
                    else [Print "Failed to save email UID"])))
  \/ (exists e,
        res oa = Raised (Exception e)
        /\ process_new_email u msg w s
           = mkOut (Ok false) (st oa) (evs oa ++ [Print "Error processing email"])).
Proof.
  cbv zeta.
  destruct (attachments_of_frame msg w s) as (_ & _ & _ & Hr).
  unfold process_new_email.
  change (if is_multipart msg then attachment_loop (walk msg) [] else ret [])
    with (attachments_of msg).
  destruct (res (attachments_of msg w s)) as [a|[e|c]|] eqn:Hres;
    try contradiction.
  - left. exists a. split; [reflexivity|].
    apply try_except_returns.
    rewrite (bind_ok _ _ w s a Hres).
    change (mkEntry (Str.of_N u) (opt_default "Unknown" (msg_from msg))
              (opt_default "No Subject" (msg_subject msg))
              (Str.strip (extract_body msg)) a "pending")
      with (entry_of u msg a).
    rewrite hand_over_out. reflexivity.
  - right. exists e. split; [reflexivity|].
    rewrite (try_except_raised _ _ w s (st (attachments_of msg w s))
               (evs (attachments_of msg w s)) e).
    + reflexivity.
    + now apply bind_raised.
Qed.

Lemma handoff_ok_iff r : handoff_ok r = true <-> r = Response 201.
Proof.
  destruct r as [code|e]; cbn; [|split; discriminate].
  rewrite Nat.eqb_eq. split; [now intros -> | now intros [= ->]].
Qed.

Lemma posted_tail ok :
  posted (if ok : bool then [] else [Print "Failed to save email UID"]) = [].
Proof. now destruct ok. Qed.

(** The hand-offs of [process_new_email]: one when the attachments went
    through, none otherwise. *)
Lemma process_new_email_posted u msg w s :
  let oa := attachments_of msg w s in
  let o := process_new_email u msg w s in
  (exists attachments,
     res oa = Ok attachments
     /\ res o = Ok (handoff_ok (w_post w (now (st oa))))
     /\ posted (evs o) = [(entry_of u msg attachments, w_post w (now (st oa)))]
     /\ self (st o) = self s /\ emails_processed (st o) = emails_processed s
     /\ forall name, stored name (evs oa) -> stored name (evs o))
  \/ (exists e,
        res oa = Raised (Exception e)
        /\ res o = Ok false /\ posted (evs o) = []
        /\ self (st o) = self s /\ emails_processed (st o) = emails_processed s).
Proof.
  cbv zeta.
  destruct (attachments_of_frame msg w s) as (Hs & He & Hev & _).
  destruct (process_new_email_cases u msg w s)
    as [(a & Hr & Heq)|(e & Hr & Heq)]; rewrite Heq; cbn [res st evs].
  - left. exists a. repeat split; auto.
    + rewrite posted_app, (posted_none _ Hev), save_email_to_api_out.
      cbn [evs posted app]. now rewrite posted_tail.
    + intros name Hst. now apply stored_app_l.
  - right. exists e. repeat split; auto.
    rewrite posted_app, (posted_none _ Hev). reflexivity.
Qed.

(** X2. [process_new_email] never raises and does not touch the monitor or
    the processed count.  It makes at most one POST, whose record is the
    one of lines 168-175 for this identifier and message, and it returns
    [True] exactly when that POST was answered with status 201. *)
Theorem process_new_email_true_iff_201 (u : uid) (msg : Message) (w : World) (s : State) :
  let o := process_new_email u msg w s in
  exists ok,
    res o = Ok ok
    /\ self (st o) = self s
    /\ emails_processed (st o) = emails_processed s
    /\ (ok = true <-> exists entry, posted (evs o) = [(entry, Response 201)])
    /\ (List.length (posted (evs o)) <= 1)%nat
    /\ (forall entry r,
          In (entry, r) (posted (evs o)) ->
          entry = entry_of u msg (e_attachments entry)).
Proof.
  cbv zeta.
  destruct (process_new_email_posted u msg w s)
    as [(a & _ & Hr & Hp & Hs & He & _)|(e & _ & Hr & Hp & Hs & He)];
    rewrite Hp; eexists; (split; [exact Hr|]);
    (split; [exact Hs|]); (split; [exact He|]).
  - split; [split|split].
    + intros Hok. apply handoff_ok_iff in Hok. rewrite Hok. eauto.
    + intros [entry Heq]. injection Heq as _ Hw. now apply handoff_ok_iff.
    + cbn. lia.
    + intros entry r [Heq|[]]. injection Heq as <- _. reflexivity.
  - split; [split|split].
    + discriminate.
    + intros [entry Heq]. discriminate Heq.
    + cbn. lia.
    + intros entry r [].
Qed.

Lemma process_new_email_true_iff_201_witness :
  mkEntry "11" "rig@example.org" "Log" "please find the log attached"
    ["log.las"] "pending"
  = entry_of 11%N report_message ["log.las"].
Proof.
  destruct (process_new_email_true_iff_201 11%N report_message calm initial_state)
    as (ok & _ & _ & _ & _ & _ & H).
  apply (H (mkEntry "11" "rig@example.org" "Log" "please find the log attached"
              ["log.las"] "pending") (Response 201)).
  vm_compute. left. reflexivity.
Defined.

(** X3. Every attachment name in a record handed to the API sink names a
    file that was written to the attachment directory during the
    extraction, with an allowed extension; it is the sanitised name of a
    part of the message, and so holds no path separator. *)
Theorem recorded_attachments_are_stored (u : uid) (msg : Message) (w : World) (s : State) :
  let o := process_new_email u msg w s in
  forall entry r name,
    In (entry, r) (posted (evs o)) ->
    In name (e_attachments entry) ->
    stored name (evs o)
    /\ str_in (file_ext_of name) allowed_extensions = true
    /\ (exists part filename,
          In part (walk msg) /\ part_filename part = Some filename
          /\ name = sanitize filename)
    /\ (forall a b, name <> a ++ String Str.slash b).
Proof.
  cbv zeta. intros entry r name Hpost Hname.
  destruct (attachments_of_frame msg w s) as (_ & _ & _ & Hatt).
  destruct (process_new_email_posted u msg w s)
    as [(a & Hra & _ & Hp & _ & _ & Hst)|(e & _ & _ & Hp & _)];
    rewrite Hp in Hpost; [|destruct Hpost].
  destruct Hpost as [[= <- _]|[]]. cbn [entry_of e_attachments] in Hname.
  rewrite Hra in Hatt. destruct (Hatt name Hname) as (H1 & H2 & p & f & Hp1 & Hp2 & Hn).
  repeat split; auto.
  - exists p, f. auto.
  - intros x y Heq. pose proof (sanitize_no_slash f) as Hno.
    rewrite <- Hn, Heq, existsb_app in Hno. cbn in Hno.
    now rewrite orb_true_r in Hno.
Qed.

Lemma recorded_attachments_are_stored_witness :
  stored "log.las" (evs (process_new_email 11%N report_message calm watching)).
Proof.
  exact (proj1 (recorded_attachments_are_stored 11%N report_message calm watching
                  (entry_of 11%N report_message ["log.las"]) (Response 201)
                  "log.las" (or_introl eq_refl) (or_introl eq_refl))).
Defined.

(** A part with an allowed name and no decodable payload. *)
Lemma attachment_step_undecodable part filename attachments w s :
  part_filename part = Some filename ->
  Str.truthy filename = true ->
  str_in (file_ext_of (sanitize filename)) allowed_extensions = true ->
  part_payload part = None ->
  exists e,
    attachment_step part attachments w s = mkOut (Raised (Exception e)) s [].
Proof.
  intros Hf Ht Hext Hp. unfold attachment_step.
  rewrite Hf, Ht, Hext, Hp. cbn [negb]. eexists. reflexivity.
Qed.

Lemma attachment_loop_undecodable parts :
  forall part filename attachments w s,
  In part parts ->
  part_filename part = Some filename ->
  Str.truthy filename = true ->
  str_in (file_ext_of (sanitize filename)) allowed_extensions = true ->
  part_payload part = None ->
  exists e, res (attachment_loop parts attachments w s) = Raised (Exception e).
Proof.
  induction parts as [|p rest IH]; intros part filename attachments w s Hin Hf Ht Hext Hp;
    [destruct Hin|].
  cbn [attachment_loop].
  destruct (attachment_step_frame p attachments w s) as (_ & _ & _ & Hr).
  destruct (res (attachment_step p attachments w s)) as [a|[e|c]|] eqn:Hres;
    cbn in Hr; try contradiction.
  - destruct Hin as [->|Hin].
    + destruct (attachment_step_undecodable part filename attachments w s Hf Ht Hext Hp)
        as [e He]. rewrite He in Hres. discriminate.
    + rewrite (bind_ok _ _ w s a Hres). unfold prepend; cbn [res].
      eapply IH; eauto.
  - rewrite (bind_raised _ _ w s _ Hres). exists e. reflexivity.
Qed.

(** X4. A multipart message with a part whose file name is allowed but
    whose payload cannot be decoded ([get_payload] gives [None]) is never
    handed to the API sink: the [len] of line 151 raises, the handler of
    line 186 takes it, and [process_new_email] returns [False] without a
    POST, whatever the other parts are. *)
Theorem undecodable_attachment_drops_message
    (u : uid) (msg : Message) (part : Part) (filename : string)
    (w : World) (s : State) :
  is_multipart msg = true ->
  In part (walk msg) ->
  part_filename part = Some filename ->
  Str.truthy filename = true ->
  str_in (file_ext_of (sanitize filename)) allowed_extensions = true ->
  part_payload part = None ->
  let o := process_new_email u msg w s in
  res o = Ok false /\ posted (evs o) = [].
Proof.
  intros Hm Hin Hf Ht Hext Hp. cbv zeta.
  destruct (attachment_loop_undecodable (walk msg) part filename [] w s
              Hin Hf Ht Hext Hp) as [e He].
  destruct (process_new_email_posted u msg w s)
    as [(a & Hra & _)|(e' & _ & Hr & Hpo & _)]; [|auto].
  unfold attachments_of in Hra. rewrite Hm in Hra. congruence.
Qed.

Lemma undecodable_attachment_drops_message_witness :
  res (process_new_email 11%N hollow_message calm watching) = Ok false
  /\ posted (evs (process_new_email 11%N hollow_message calm watching)) = [].
Proof.
  exact (undecodable_attachment_drops_message 11%N hollow_message hollow_part
           "run.las" calm watching eq_refl
           (or_intror (or_intror (or_introl eq_refl)))
           eq_refl eq_refl eq_refl eq_refl).
Defined.

(** ** The processed count *)

Lemma process_new_email_events u msg w s :
  Forall (fun e => is_print e \/ is_write e \/ is_post e)
    (evs (process_new_email u msg w s)).
Proof.
  destruct (attachments_of_frame msg w s) as (_ & _ & Hev & _).
  assert (Hoa : Forall (fun e => is_print e \/ is_write e \/ is_post e)
                  (evs (attachments_of msg w s))).
  { eapply Forall_impl; [|exact Hev]. intros e [H|H]; auto. }
  destruct (process_new_email_cases u msg w s)
    as [(a & _ & Heq)|(e & _ & Heq)]; rewrite Heq; cbn [evs].
  - apply Forall_app. split; [exact Hoa|].
    rewrite save_email_to_api_out. cbn [evs app].
    repeat (apply Forall_cons; [cbn; tauto|]).
    destruct (handoff_ok _); each_event.
  - apply Forall_app. split; [exact Hoa|]. each_event.
Qed.

Lemma reported_app l1 l2 : reported (l1 ++ l2) = (reported l1 ++ reported l2)%list.
Proof.
  induction l1 as [|e l1 IH]; [reflexivity|].
  destruct e; cbn; rewrite ?IH; reflexivity.
Qed.

Lemma reported_none l :
  Forall (fun e => is_print e \/ is_write e \/ is_post e) l -> reported l = [].
Proof.
  induction 1 as [|e l He _ IH]; [reflexivity|].
  destruct e; cbn in *; try exact IH; destruct He as [[]|[[]|[]]].
Qed.

Lemma fetched_app l1 l2 : fetched (l1 ++ l2) = (fetched l1 ++ fetched l2)%list.
Proof.
  induction l1 as [|e l1 IH]; [reflexivity|].
  destruct e; cbn; rewrite ?IH; reflexivity.
Qed.

Lemma fetched_none l :
  Forall (fun e => is_print e \/ is_write e \/ is_post e) l -> fetched l = [].
Proof.
  induction 1 as [|e l He _ IH]; [reflexivity|].
  destruct e; cbn in *; try exact IH; destruct He as [[]|[[]|[]]].
Qed.

(** Lines 273-274, in closed form. *)
Lemma count_out (ok : bool) w s :
  when ok
    (n <- get_emails_processed ;;
     set_emails_processed (S n) ;;
     update_status true None (Some (S n))) w s
  = if ok
    then mkOut (Ok tt)
           (mkState (self s) (S (emails_processed s)) (S (S (now s))))
           [HttpPut
              (status_data true None (Some (S (emails_processed s)))
                 (w_clock w (now s)))
              (w_put w (S (now s)));
            Print (status_line (w_put w (S (now s))))]
    else mkOut (Ok tt) s [].
Proof.
  destruct ok; [|reflexivity]. unfold when.
  rewrite (bind_ok get_emails_processed _ w s (emails_processed s) eq_refl).
  cbn [get_emails_processed st evs].
  rewrite (bind_ok (set_emails_processed _) _ w s tt eq_refl).
  cbn [set_emails_processed st evs].
  rewrite update_status_out. reflexivity.
Qed.

(** [process_uid] on a fetched message, in closed form. *)
Lemma process_uid_fetched_out u msg w s c ok :
  client (self s) = Some c ->
  w_fetch w (now s) u = FetchBytes msg ->
  res (process_new_email u msg w (tick s)) = Ok ok ->
  let p := process_new_email u msg w (tick s) in
  let k := when ok
             (n <- get_emails_processed ;;
              set_emails_processed (S n) ;;
              update_status true None (Some (S n))) w (st p) in
  res (process_uid u w s) = Ok Next
  /\ emails_processed (st (process_uid u w s)) = emails_processed (st k)
  /\ evs (process_uid u w s)
     = ImapFetch u (FetchBytes msg) :: (evs p ++ evs k)%list.
Proof.
  intros Hc Hf Hp. cbv zeta.
  assert (Hk : res (when ok
             (n <- get_emails_processed ;;
              set_emails_processed (S n) ;;
              update_status true None (Some (S n))) w
             (st (process_new_email u msg w (tick s)))) = Ok tt)
    by (rewrite count_out; now destruct ok).
  unfold process_uid, try_except. rewrite bind_get_self, Hc.
  rewrite (bind_ok (imap_fetch u) _ w s (Some msg))
    by (rewrite imap_fetch_out, Hf; reflexivity).
  rewrite imap_fetch_out, Hf. cbn [st evs].
  rewrite (bind_ok (process_new_email u msg) _ w (tick s) ok Hp).
  rewrite (bind_ok _ _ w _ tt Hk).
  unfold prepend; cbn [res st evs]. rewrite bind_get_self.
  repeat split. cbn [app]. now rewrite app_nil_r.
Qed.

(** X5. For a fetched message the processed count goes up by one exactly
    when the hand-off was answered with status 201, and that is also when
    one status report, [isRunning=true] with the new count, is sent; a
    failed hand-off changes neither and sends no report. *)
Theorem processed_count_follows_handoff
    (u : uid) (msg : Message) (w : World) (s : State) (c : session) :
  client (self s) = Some c ->
  w_fetch w (now s) u = FetchBytes msg ->
  let o := process_uid u w s in
  exists ok,
    (ok = true <-> exists entry, posted (evs o) = [(entry, Response 201)])
    /\ emails_processed (st o)
       = (if ok then S (emails_processed s) else emails_processed s)
    /\ exists t,
         reported (evs o)
         = if ok
           then [status_data true None (Some (S (emails_processed s))) t]
           else [].
Proof.
  intros Hc Hf. cbv zeta.
  pose proof (process_new_email_events u msg w (tick s)) as Hev.
  destruct (process_new_email_posted u msg w (tick s))
    as [(a & _ & Hr & Hp & _ & He & _)|(e & _ & Hr & Hp & _ & He)].
  - destruct (handoff_ok (w_post w (now (st (attachments_of msg w (tick s))))))
      eqn:Hok;
      destruct (process_uid_fetched_out u msg w s c _ Hc Hf Hr) as (_ & Hep & Hevs);
      rewrite Hevs, Hep, count_out; cbn [st evs emails_processed posted reported];
      rewrite posted_app, reported_app, Hp, (reported_none _ Hev), He;
      cbn [posted reported app].
    + exists true. apply handoff_ok_iff in Hok. rewrite Hok.
      split; [split; eauto | split; [reflexivity | eexists; reflexivity]].
    + exists false.
      split; [split; [discriminate|] | split; [reflexivity | now exists 0%Z]].
      intros [entry Heq]. injection Heq as _ Hw.
      apply handoff_ok_iff in Hw. congruence.
  - destruct (process_uid_fetched_out u msg w s c _ Hc Hf Hr) as (_ & Hep & Hevs).
    rewrite Hevs, Hep, count_out; cbn [st evs emails_processed posted reported].
    rewrite posted_app, reported_app, Hp, (reported_none _ Hev), He.
    cbn [posted reported app].
    exists false.
    split; [split; [discriminate|] | split; [reflexivity | now exists 0%Z]].
    intros [entry Heq]. discriminate Heq.
Qed.

Lemma processed_count_follows_handoff_witness :
  exists ok,
    (ok = true <->
     exists entry, posted (evs (process_uid 11%N calm watching))
                   = [(entry, Response 201)])
    /\ emails_processed (st (process_uid 11%N calm watching))
       = (if ok then 1 else 0)
    /\ exists t,
         reported (evs (process_uid 11%N calm watching))
         = if ok then [status_data true None (Some 1) t] else [].
Proof.
  exact (processed_count_follows_handoff 11%N text_message calm watching 0
           eq_refl eq_refl).
Defined.

(** ** The session *)

(** One step of a computation that returns: its events come first. *)
Ltac peel :=
  repeat first
    [ rewrite bind_get_self
    | match goal with
      | |- context [bind ?m ?k ?w ?s] => rewrite (bind_ok m k w s _ eq_refl)
      end ].

Ltac tidy :=
  unfold prepend;
  cbn [res st evs app ask emit print sleep check ret raise get_now set_client
       set_running set_last_uid set_emails_processed set_self get_self bind
       self emails_processed now running client last_uid tick].

Lemma connect_out w s :
  connect w s
  = match connect_error w (now s) with
    | None =>
        mkOut (Ok true)
          (mkState (mkMonitor (running (self s)) (Some (now s)) (last_uid (self s)))
             (emails_processed s) (S (S (S (now s)))))
          [ImapOpen None; ImapLogin None; ImapSelect None; Print "Connected"]
    | Some e =>
        let calls :=
          match w_open w (now s) with
          | Some _ => 1
          | None => match w_login w (S (now s)) with Some _ => 2 | None => 3 end
          end in
        let s1 :=
          mkState
            (mkMonitor (running (self s))
               (match w_open w (now s) with
                | Some _ => client (self s)
                | None => Some (now s)
                end) (last_uid (self s)))
            (emails_processed s) (calls + now s) in
        mkOut (Ok false) (tick (tick s1))
          ((match w_open w (now s) with
            | Some _ => [ImapOpen (Some e)]
            | None =>
                match w_login w (S (now s)) with
                | Some _ => [ImapOpen None; ImapLogin (Some e)]
                | None => [ImapOpen None; ImapLogin None; ImapSelect (Some e)]
                end
            end)
           ++ Print "Connection failed"
              :: evs (update_status false (Some (err_text e)) None w s1))
    end.
Proof.
  assert (Hh : forall e s1 pre,
    prepend pre
      ((print "Connection failed" ;;
        update_status false (Some (err_text e)) None ;; ret false) w s1)
    = mkOut (Ok false) (tick (tick s1))
        (pre ++ Print "Connection failed"
             :: evs (update_status false (Some (err_text e)) None w s1))).
  { intros e s1 pre.
    rewrite (bind_ok (print _) _ w s1 tt eq_refl). cbn [print emit st evs].
    rewrite (bind_ok (update_status _ _ _) _ w s1 tt)
      by (rewrite update_status_out; reflexivity).
    rewrite update_status_out. reflexivity. }
  destruct s as [[r c l] ep n]. unfold connect_error. cbn [now self running client last_uid emails_processed].
  destruct (w_open w n) as [e|] eqn:Ho;
    [|destruct (w_login w (S n)) as [e|] eqn:Hl;
      [|destruct (w_select w (S (S n))) as [e|] eqn:Hs]];
    unfold connect.
  - erewrite try_except_raised
      with (e := e) (l := [ImapOpen (Some e)])
           (s1 := mkState (mkMonitor r c l) ep (S n)).
    + rewrite Hh. reflexivity.
    + peel. tidy. rewrite Ho. tidy.
      reflexivity.
  - erewrite try_except_raised
      with (e := e) (l := [ImapOpen None; ImapLogin (Some e)])
           (s1 := mkState (mkMonitor r (Some n) l) ep (S (S n))).
    + rewrite Hh. reflexivity.
    + peel. tidy. rewrite Ho. tidy. peel. tidy. rewrite Hl. tidy.
      reflexivity.
  - erewrite try_except_raised
      with (e := e) (l := [ImapOpen None; ImapLogin None; ImapSelect (Some e)])
           (s1 := mkState (mkMonitor r (Some n) l) ep (S (S (S n)))).
    + rewrite Hh. reflexivity.
    + peel. tidy. rewrite Ho. tidy. peel. tidy. rewrite Hl. tidy.
      peel. tidy. rewrite Hs. tidy.
      reflexivity.
  - apply try_except_returns.
    peel. tidy. rewrite Ho. tidy. peel. tidy. rewrite Hl. tidy.
    peel. tidy. rewrite Hs. tidy. peel. reflexivity.
Qed.

Lemma connects_error w t :
  connects w t = true <-> connect_error w t = None.
Proof.
  unfold connects, connect_error.
  destruct (w_open w t); [cbn; split; discriminate|].
  destruct (w_login w (S t)); [cbn; split; discriminate|].
  destruct (w_select w (S (S t))); cbn; split; congruence.
Qed.

(** X6. [connect] never raises; it returns [True] exactly when opening the
    connection, the login and the selection of the folder all succeed, and
    then it sends no status report.  When one of them raises, it returns
    [False] after one report [isRunning=false] with that error.  A failure
    of the login or of the selection leaves the new, unusable session in
    [self.client]; a failure to open leaves [self.client] as it was. *)
Theorem connect_true_iff_all_succeed (w : World) (s : State) :
  let o := connect w s in
  res o = Ok (connects w (now s))
  /\ running (self (st o)) = running (self s)
  /\ last_uid (self (st o)) = last_uid (self s)
  /\ (connects w (now s) = true ->
      client (self (st o)) = Some (now s) /\ reported (evs o) = [])
  /\ (forall e,
        connect_error w (now s) = Some e ->
        (exists t, reported (evs o) = [status_data false (Some (err_text e)) None t])
        /\ client (self (st o))
           = match w_open w (now s) with
             | Some _ => client (self s)
             | None => Some (now s)
             end).
Proof.
  cbv zeta. rewrite connect_out.
  destruct (connect_error w (now s)) as [e|] eqn:He.
  - assert (Hc : connects w (now s) = false).
    { destruct (connects w (now s)) eqn:Hc; [|reflexivity].
      apply connects_error in Hc. congruence. }
    rewrite Hc. cbn [res st self running last_uid client tick].
    repeat split; try discriminate.
    + injection H as <-. cbn [evs].
      rewrite reported_app, update_status_out.
      destruct (w_open w (now s)); [eexists; reflexivity|].
      destruct (w_login w (S (now s))); eexists; reflexivity.
  - rewrite (proj2 (connects_error w (now s)) He). cbn.
    repeat split; auto. discriminate. discriminate.
Qed.

Lemma connect_true_iff_all_succeed_witness :
  client (self (st (connect calm initial_state))) = Some 0
  /\ reported (evs (connect calm initial_state)) = [].
Proof.
  exact (proj1 (proj2 (proj2 (proj2
    (connect_true_iff_all_succeed calm initial_state)))) eq_refl).
Defined.

(** X7. [disconnect] never raises and always ends with no session,
    whether the logout succeeds or raises; it leaves the running flag and
    the cursor alone, sends no status report, and without a session it
    does nothing at all. *)
Theorem disconnect_always_drops_session (w : World) (s : State) :
  let o := disconnect w s in
  res o = Ok tt
  /\ client (self (st o)) = None
  /\ running (self (st o)) = running (self s)
  /\ last_uid (self (st o)) = last_uid (self s)
  /\ evs o
     = match client (self s) with
       | Some _ =>
           [ImapLogout (w_logout w (now s));
            Print (logout_line (w_logout w (now s)))]
       | None => []
       end
  /\ (client (self s) = None -> st o = s).
Proof.
  cbv zeta. destruct (client (self s)) as [c|] eqn:Hc.
  - rewrite (disconnect_out w s c Hc). cbn. repeat split. discriminate.
  - unfold disconnect. rewrite bind_get_self, Hc. cbn. repeat split; auto.
Qed.

Lemma disconnect_always_drops_session_witness :
  st (disconnect calm adrift) = adrift.
Proof.
  exact (proj2 (proj2 (proj2 (proj2 (proj2
    (disconnect_always_drops_session calm adrift))))) eq_refl).
Defined.

(** ** Starting and stopping *)

Lemma shutdown_out w s :
  let od := disconnect w s in
  let s2 := mkState (mkMonitor false None (last_uid (self s)))
              (emails_processed s) (now (st od)) in
  (disconnect ;; set_running false ;; update_status false None None) w s
  = mkOut (Ok tt) (tick (tick s2))
      (evs od ++ [HttpPut (status_data false None None (w_clock w (now s2)))
                    (w_put w (S (now s2)));
                  Print (status_line (w_put w (S (now s2))))]).
Proof.
  cbv zeta.
  assert (Hd : res (disconnect w s) = Ok tt
               /\ self (st (disconnect w s))
                  = mkMonitor (running (self s)) None (last_uid (self s))
               /\ emails_processed (st (disconnect w s)) = emails_processed s).
  { destruct (client (self s)) as [c|] eqn:Hc.
    - rewrite (disconnect_out w s c Hc). repeat split.
    - unfold disconnect. rewrite bind_get_self, Hc. cbn.
      destruct s as [[r c l] ep n]. cbn in *. subst c. repeat split. }
  destruct Hd as (Hr & Hs & He).
  rewrite (bind_ok disconnect _ w s tt Hr).
  destruct (st (disconnect w s)) as [m ep n] eqn:Hst. cbn in Hs, He. subst m ep.
  rewrite (bind_ok (set_running false) _ w _ tt eq_refl).
  tidy. rewrite update_status_out. reflexivity.
Qed.

Lemma try_finally_ok {A} (body : M A) (final : M unit) w s a s1 l :
  body w s = mkOut (Ok a) s1 l -> res (final w s1) = Ok tt ->
  try_finally body final w s = mkOut (Ok a) (st (final w s1)) (l ++ evs (final w s1)).
Proof. intros Hb Hf. unfold try_finally. rewrite Hb. cbn. now rewrite Hf. Qed.

Lemma connect_res w s : res (connect w s) = Ok (connects w (now s)).
Proof.
  rewrite connect_out. destruct (connect_error w (now s)) eqn:He.
  - destruct (connects w (now s)) eqn:Hc; [|reflexivity].
    apply connects_error in Hc. congruence.
  - now rewrite (proj2 (connects_error w (now s)) He).
Qed.

(** [start] up to the outcome of [connect]. *)
Lemma start_out fuel w s :
  running (self s) = false ->
  let sA := mkState (mkMonitor true (client (self s)) (last_uid (self s)))
              (emails_processed s) (now s) in
  let oc := connect w (tick (tick sA)) in
  start fuel w s
  = prepend
      (Print "Starting email monitor..."
       :: evs (update_status true None None w sA) ++ evs oc)
      ((if connects w (S (S (now s))) then monitored fuel else set_running false)
         w (st oc)).
Proof.
  intros Hrun. cbv zeta. unfold start. rewrite bind_get_self, Hrun.
  rewrite (bind_ok (print _) _ w s tt eq_refl).
  rewrite (bind_ok (set_running true) _ w _ tt eq_refl).
  tidy.
  rewrite (bind_ok (update_status _ _ _) _ w _ tt)
    by (rewrite update_status_out; reflexivity).
  rewrite update_status_out. tidy.
  match goal with
  | |- context [bind connect ?k w ?x] =>
      rewrite (bind_ok connect k w x _ (connect_res w x))
  end.
  unfold prepend. cbn [res st evs app now tick].
  destruct (connects w (S (S (now s)))); cbn [negb]; reflexivity.
Qed.

(** X8. [start] on a monitor whose running flag is set prints one line and
    does nothing else: no status report, no connection, no change of
    state. *)
Theorem start_when_running_is_noop (fuel : nat) (w : World) (s : State) :
  running (self s) = true ->
  start fuel w s = mkOut (Ok tt) s [Print "Monitor is already running"].
Proof.
  intros Hrun. unfold start. rewrite bind_get_self, Hrun. reflexivity.
Qed.

Lemma start_when_running_is_noop_witness :
  start 3 calm watching = mkOut (Ok tt) watching [Print "Monitor is already running"].
Proof. exact (start_when_running_is_noop 3 calm watching eq_refl). Defined.

(** X9. When the connection cannot be made, [start] returns without
    entering the loop: the running flag is cleared again, the cursor is
    untouched, there is no search, fetch or hand-off, and the status
    reports are [isRunning=true] followed by [isRunning=false] with the
    error.  No logout is issued, so that after a failed login or folder
    selection the half-open session stays in [self.client]. *)
Theorem start_connection_failure
    (fuel : nat) (w : World) (s : State) (e : error) :
  running (self s) = false ->
  connect_error w (S (S (now s))) = Some e ->
  let o := start fuel w s in
  res o = Ok tt
  /\ self (st o)
     = mkMonitor false
         (match w_open w (S (S (now s))) with
          | Some _ => client (self s)
          | None => Some (S (S (now s)))
          end) (last_uid (self s))
  /\ (exists t1 t2,
        reported (evs o)
        = [status_data true None None t1;
           status_data false (Some (err_text e)) None t2])
  /\ Forall quiet_ev (evs o)
  /\ (forall r, ~ In (ImapLogout r) (evs o)).
Proof.
  intros Hrun He. cbv zeta.
  assert (Hc : connects w (S (S (now s))) = false).
  { destruct (connects w (S (S (now s)))) eqn:Hc; [|reflexivity].
    apply connects_error in Hc. congruence. }
  rewrite (start_out fuel w s Hrun), Hc, connect_out, update_status_out.
  cbn [now tick]. rewrite He, update_status_out.
  tidy.
  split; [reflexivity|]. split; [reflexivity|].
  destruct (w_open w (S (S (now s)))) as [e1|];
    [|destruct (w_login w (S (S (S (now s))))) as [e2|]]; cbn [app reported].
  all: split; [eexists _, _; reflexivity|].
  all: split; [each_event|].
  all: intros r Hin; cbn in Hin;
    repeat (destruct Hin as [Hin|Hin]; [discriminate Hin|]); exact Hin.
Qed.

Lemma start_connection_failure_witness :
  exists t1 t2,
    reported (evs (start 1 calm_no_login initial_state))
    = [status_data true None None t1;
       status_data false (Some "bad credentials") None t2].
Proof.
  exact (proj1 (proj2 (proj2
    (start_connection_failure 1 calm_no_login initial_state
       (mkError OtherError "bad credentials") eq_refl eq_refl)))).
Defined.

Lemma critical_out e w s :
  (print "Critical error in email monitor" ;;
   update_status false (Some (err_text e)) None) w s
  = mkOut (Ok tt) (tick (tick s))
      [Print "Critical error in email monitor";
       HttpPut (status_data false (Some (err_text e)) None (w_clock w (now s)))
         (w_put w (S (now s)));
       Print (status_line (w_put w (S (now s))))].
Proof.
  rewrite (bind_ok (print _) _ w s tt eq_refl). cbn [print emit st evs].
  rewrite update_status_out. reflexivity.
Qed.

Lemma monitored_is_guarded fuel :
  monitored fuel
  = guarded (set_emails_processed 0 ;; monitor_loop fuel)
      (fun e => print "Critical error in email monitor" ;;
                update_status false (Some (err_text e)) None)
      (disconnect ;; set_running false ;; update_status false None None).
Proof. reflexivity. Qed.

Lemma monitored_search_fails fuel w s c e :
  client (self s) = Some c -> w_search w (now s) = inl e ->
  monitored fuel w s
  = mkOut (Ok tt)
      (mkState (mkMonitor false None (last_uid (self s))) (emails_processed s)
         (6 + now s))
      [ImapSearch (inl e);
       Print "Critical error in email monitor";
       HttpPut (status_data false (Some (err_text e)) None (w_clock w (1 + now s)))
         (w_put w (2 + now s));
       Print (status_line (w_put w (2 + now s)));
       ImapLogout (w_logout w (3 + now s));
       Print (logout_line (w_logout w (3 + now s)));
       HttpPut (status_data false None None (w_clock w (4 + now s)))
         (w_put w (5 + now s));
       Print (status_line (w_put w (5 + now s)))].
Proof.
  intros Hc Hs. destruct s as [[r c0 l] ep n]. cbn in Hc, Hs. subst c0.
  rewrite monitored_is_guarded.
  rewrite (guarded_search_fails _ _ _ w
             (mkState (mkMonitor r (Some c) l) ep n) c e eq_refl Hs).
  rewrite (try_finally_ok _ _ w _ tt _ _ (critical_out e w _))
    by (rewrite shutdown_out; reflexivity).
  rewrite shutdown_out.
  match goal with
  | |- context [disconnect w ?x] => rewrite (disconnect_out w x c eq_refl)
  end.
  reflexivity.
Qed.

(** X10. When the search for the baseline raises, [start] reports the error
    with [isRunning=false], logs out, clears the running flag and reports
    [isRunning=false] once more; it fetches and hands off nothing and
    leaves the cursor where it was. *)
Theorem start_baseline_failure
    (fuel : nat) (w : World) (s : State) (e : error) :
  running (self s) = false ->
  connects w (S (S (now s))) = true ->
  w_search w (5 + now s) = inl e ->
  let o := start fuel w s in
  res o = Ok tt
  /\ self (st o) = mkMonitor false None (last_uid (self s))
  /\ fetched (evs o) = []
  /\ posted (evs o) = []
  /\ In (ImapLogout (w_logout w (8 + now s))) (evs o)
  /\ exists t1 t2 t3,
       reported (evs o)
       = [status_data true None None t1;
          status_data false (Some (err_text e)) None t2;
          status_data false None None t3].
Proof.
  intros Hrun Hc Hs. cbv zeta.
  assert (Heq : exists s4 c,
    monitored fuel w (st (connect w (tick (tick
      (mkState (mkMonitor true (client (self s)) (last_uid (self s)))
         (emails_processed s) (now s))))))
    = monitored fuel w s4
    /\ client (self s4) = Some c /\ now s4 = 5 + now s
    /\ last_uid (self s4) = last_uid (self s)
    /\ evs (connect w (tick (tick
         (mkState (mkMonitor true (client (self s)) (last_uid (self s)))
            (emails_processed s) (now s)))))
       = [ImapOpen None; ImapLogin None; ImapSelect None; Print "Connected"]).
  { rewrite connect_out. cbn [now tick].
    rewrite (proj1 (connects_error _ _) Hc).
    eexists _, _. repeat split. }
  destruct Heq as (s4 & c & Hm & Hc4 & Hn4 & Hl4 & Hev).
  rewrite (start_out fuel w s Hrun), Hc, Hm, Hev, update_status_out.
  rewrite <- Hn4 in Hs.
  rewrite (monitored_search_fails fuel w s4 c e Hc4 Hs), Hn4, Hl4.
  unfold prepend.
  cbn [res st evs app self fetched posted reported Nat.add].
  repeat split.
  - do 11 right. left. reflexivity.
  - eexists _, _, _. reflexivity.
Qed.

Lemma start_baseline_failure_witness :
  self (st (start 2 calm_no_search initial_state)) = mkMonitor false None 0%N.
Proof.
  exact (proj1 (proj2
    (start_baseline_failure 2 calm_no_search initial_state
       (mkError OtherError "SEARCH failed") eq_refl eq_refl eq_refl))).
Defined.

Lemma connect_fails_report w s :
  connects w (now s) = false ->
  exists e t,
    reported (evs (connect w s)) = [status_data false (Some (err_text e)) None t].
Proof.
  intros Hc. rewrite connect_out.
  destruct (connect_error w (now s)) as [e|] eqn:He.
  - exists e. cbn [evs]. rewrite reported_app, update_status_out.
    destruct (w_open w (now s)); [eexists; reflexivity|].
    destruct (w_login w (S (now s))); eexists; reflexivity.
  - apply connects_error in He. congruence.
Qed.

(** The body of the [try] of [start], with its handler, does not raise. *)
Lemma monitored_body_spec fuel :
  spec (fun _ => True) (fun _ => True) (fun _ => False) True
    (try_except
       (m <- get_self ;;
        match client m with
        | None => ret tt
        | Some _ =>
            take_baseline ;;
            set_emails_processed 0 ;;
            monitor_loop fuel
        end)
       is_Exception
       (fun e =>
          print "Critical error in email monitor" ;;
          update_status false (Some (err_text e)) None)).
Proof.
  apply spec_try_except; [|intros e; apply critical_spec; auto].
  apply spec_bind; [apply spec_get_self|intros m].
  destruct (client m); [|apply spec_ret].
  apply spec_bind.
  - unfold take_baseline.
    apply spec_bind; [apply imap_search_spec; auto; intros e; exact Logic.I|].
    intros l. apply spec_bind; [|intros _; apply spec_print; auto].
    intros w0 s0 _. cbn. auto.
  - intros _. apply spec_bind; [apply spec_set_emails_processed|intros _].
    apply monitor_loop_spec; auto.
    intros m0 u _ _. split; intros; exact Logic.I.
Qed.

Lemma monitored_returns fuel w s :
  let o := monitored fuel w s in
  (res o = Ok tt \/ res o = Fuel)
  /\ (res o = Ok tt ->
      running (self (st o)) = false
      /\ client (self (st o)) = None
      /\ exists l t,
           reported (evs o) = (l ++ [status_data false None None t])%list).
Proof.
  cbv zeta. unfold monitored, try_finally.
  match goal with
  | |- context [res (try_except ?b ?sel ?h w s)] =>
      destruct (monitored_body_spec fuel w s Logic.I) as (_ & _ & Hr);
      destruct (try_except b sel h w s) as [[[]|x|] s1 ev1]; cbn in Hr
  end; [|contradiction|cbn; split; [now right | discriminate]].
  cbn [res st evs]. rewrite shutdown_out. cbn [res st evs tick self running client].
  split; [now left|]. intros _. repeat split.
  eexists _, _. rewrite app_assoc, reported_app. cbn [reported app]. reflexivity.
Qed.

(** X11. [start] on a monitor that is not running never raises.  Whenever
    it returns, the running flag is cleared and the last status report it
    sent says [isRunning=false]. *)
Theorem start_returns_stopped (fuel : nat) (w : World) (s : State) :
  running (self s) = false ->
  let o := start fuel w s in
  (res o = Ok tt \/ res o = Fuel)
  /\ (res o = Ok tt ->
      running (self (st o)) = false
      /\ exists l data,
           reported (evs o) = (l ++ [data])%list /\ isRunning data = false).
Proof.
  intros Hrun. cbv zeta. rewrite (start_out fuel w s Hrun).
  unfold prepend. cbn [res st evs]. rewrite reported_app.
  destruct (connects w (S (S (now s)))) eqn:Hc.
  - destruct (monitored_returns fuel w
      (st (connect w (tick (tick
         (mkState (mkMonitor true (client (self s)) (last_uid (self s)))
            (emails_processed s) (now s))))))) as [H1 H2].
    split; [exact H1|]. intros Hok.
    destruct (H2 Hok) as (Hr & _ & l & t & Hl). split; [exact Hr|].
    rewrite Hl, app_assoc. eexists _, _. split; reflexivity.
  - split; [now left|]. intros _.
    destruct (connect_fails_report w (tick (tick
         (mkState (mkMonitor true (client (self s)) (last_uid (self s)))
            (emails_processed s) (now s)))) Hc) as (e & t & Hrep).
    split; [reflexivity|].
    cbn [evs set_running bind get_self set_self reported res st app].
    rewrite app_nil_r.
    change (Print "Starting email monitor..."
            :: evs (update_status true None None w
                      (mkState (mkMonitor true (client (self s)) (last_uid (self s)))
                         (emails_processed s) (now s)))
               ++ evs (connect w (tick (tick
                    (mkState (mkMonitor true (client (self s)) (last_uid (self s)))
                       (emails_processed s) (now s))))))
      with ((Print "Starting email monitor..."
             :: evs (update_status true None None w
                       (mkState (mkMonitor true (client (self s)) (last_uid (self s)))
                          (emails_processed s) (now s))))
            ++ evs (connect w (tick (tick
                    (mkState (mkMonitor true (client (self s)) (last_uid (self s)))
                       (emails_processed s) (now s))))))%list.
    rewrite reported_app, Hrep. eexists _, _. split; reflexivity.
Qed.

Lemma start_returns_stopped_witness :
  res (start 1 calm initial_state) = Ok tt
  \/ res (start 1 calm initial_state) = Fuel.
Proof. exact (proj1 (start_returns_stopped 1 calm initial_state eq_refl)). Defined.

(** ** Cycles that find nothing *)

Lemma poll_without_session w s :
  client (self s) = None -> poll w s = mkOut (Ok tt) s [].
Proof.
  intros Hc. unfold poll. rewrite bind_get_self, Hc. cbn [is_some when].
  rewrite (bind_ok (ret tt) _ w s tt eq_refl). cbn [ret st evs].
  rewrite bind_get_self, Hc. reflexivity.
Qed.

Lemma cycle_without_session w s :
  client (self s) = None -> cycle w s = mkOut (Ok tt) s [].
Proof.
  intros Hc. unfold cycle. apply try_except_returns.
  now apply poll_without_session.
Qed.

Lemma loop_without_session fuel w s :
  running (self s) = true -> client (self s) = None ->
  monitor_loop fuel w s = mkOut Fuel s [].
Proof.
  intros Hrun Hc. induction fuel as [|fuel IH].
  - cbn [monitor_loop]. rewrite bind_get_self, Hrun. reflexivity.
  - rewrite (monitor_loop_next fuel w s Hrun), (cycle_without_session w s Hc).
    cbn [st evs]. rewrite IH. reflexivity.
Qed.

(** X12. A monitor that is running without a session does nothing, for
    ever: each cycle of its loop makes no call, prints nothing and waits
    for nothing, and the loop never ends or reconnects by itself. *)
Theorem loop_without_session_spins (w : World) (s : State) :
  running (self s) = true ->
  client (self s) = None ->
  cycle w s = mkOut (Ok tt) s []
  /\ forall fuel, monitor_loop fuel w s = mkOut Fuel s [].
Proof.
  intros Hrun Hc. split; [now apply cycle_without_session|].
  intros fuel. now apply loop_without_session.
Qed.

Lemma loop_without_session_spins_witness :
  monitor_loop 1000 calm adrift = mkOut Fuel adrift [].
Proof.
  exact (proj2 (loop_without_session_spins calm adrift eq_refl eq_refl) 1000).
Defined.

(** X13. When the keep-alive raises a transient error and the connection
    cannot be opened again, the cycle ends with the session dropped and
    the running flag still set, after the delays of 5 and 10 seconds; from
    then on the loop makes no further call: the monitor stays up without
    ever reconnecting. *)
Theorem failed_reopen_stalls_monitor
    (w : World) (s : State) (c : session) (e e' : error) :
  running (self s) = true ->
  client (self s) = Some c ->
  is_transient (err_class e) = true ->
  w_noop w (now s) = Some e ->
  w_open w (2 + now s) = Some e' ->
  let o := cycle w s in
  self (st o) = mkMonitor true None (last_uid (self s))
  /\ In (Sleep 5) (evs o) /\ In (Sleep 10) (evs o)
  /\ forall fuel, monitor_loop (S fuel) w s = mkOut Fuel (st o) (evs o).
Proof.
  intros Hrun Hc Ht Hn Ho. cbv zeta.
  assert (Hcycle : cycle w s = prepend [ImapNoop (Some e)] (on_transient w (tick s))).
  { unfold cycle.
    rewrite (try_except_raised _ _ w s (tick s) [ImapNoop (Some e)] e
               (poll_noop_raises w s c e Hc Hn)).
    now rewrite Ht. }
  destruct (on_transient_out w (tick s) c Hc) as (ok & Hok & Hout).
  cbn [tick self now emails_processed] in Hok, Hout.
  assert (Hconn : connects w (S (S (now s))) = false).
  { unfold connects. change (S (S (now s))) with (2 + now s). now rewrite Ho. }
  rewrite connect_res in Hok. cbn [now] in Hok. rewrite Hconn in Hok.
  injection Hok as <-.
  assert (Hself : self (st (connect w
            (mkState (mkMonitor (running (self s)) None (last_uid (self s)))
               (emails_processed s) (S (S (now s))))))
          = mkMonitor true None (last_uid (self s))).
  { rewrite connect_out. unfold connect_error. cbn [now self running client last_uid].
    change (S (S (now s))) with (2 + now s). rewrite Ho, Hrun. reflexivity. }
  rewrite Hcycle, Hout. unfold prepend. cbn [st evs].
  split; [exact Hself|]. split; [|split].
  - cbn. do 4 right. now left.
  - cbn [app]. do 5 right. apply in_or_app. right. now left.
  - intros fuel. rewrite (monitor_loop_next fuel w s Hrun), Hcycle, Hout.
    unfold prepend. cbn [st evs].
    match goal with
    | |- context [monitor_loop fuel w ?x] =>
        rewrite (loop_without_session fuel w x) by (rewrite Hself; reflexivity)
    end.
    cbn [res st evs]. now rewrite app_nil_r.
Qed.

Lemma failed_reopen_stalls_monitor_witness :
  monitor_loop 1000 offline watching
  = mkOut Fuel (st (cycle offline watching)) (evs (cycle offline watching)).
Proof.
  exact (proj2 (proj2 (proj2
    (failed_reopen_stalls_monitor offline watching 0
       (mkError TimeoutError "timed out")
       (mkError ConnectionResetError "connection reset")
       eq_refl eq_refl eq_refl eq_refl eq_refl))) 999).
Defined.

Lemma imap_noop_out w s :
  imap_noop w s
  = mkOut (match w_noop w (now s) with
           | Some e => Raised (Exception e)
           | None => Ok tt
           end) (tick s) [ImapNoop (w_noop w (now s))].
Proof.
  destruct (w_noop w (now s)) eqn:Hn; unfold imap_noop; run; rewrite Hn; reflexivity.
Qed.

Lemma imap_search_out w s :
  imap_search w s
  = mkOut (match w_search w (now s) with
           | inl e => Raised (Exception e)
           | inr l => Ok l
           end) (tick s) [ImapSearch (w_search w (now s))].
Proof.
  destruct (w_search w (now s)) eqn:Hs; unfold imap_search; run; rewrite Hs;
    reflexivity.
Qed.

(** [poll] once the keep-alive and the search have answered. *)
Lemma poll_ok_out w s c all_messages :
  client (self s) = Some c ->
  w_noop w (now s) = None ->
  w_search w (S (now s)) = inr all_messages ->
  poll w s
  = prepend [ImapNoop None; ImapSearch (inr all_messages)]
      ((match new_messages all_messages (last_uid (self s)) with
        | [] => print "No new emails found"
        | _ => for_uids (sorted (new_messages all_messages (last_uid (self s))))
        end ;; idle_wait 30) w (tick (tick s))).
Proof.
  intros Hc Hn Hs. unfold poll. rewrite bind_get_self, Hc. cbn [is_some when].
  rewrite (bind_ok imap_noop _ w s tt) by (rewrite imap_noop_out, Hn; reflexivity).
  rewrite imap_noop_out, Hn. cbn [st evs]. rewrite bind_get_self.
  cbn [tick self]. rewrite Hc.
  rewrite (bind_ok imap_search _ w _ all_messages)
    by (rewrite imap_search_out; cbn [now tick]; rewrite Hs; reflexivity).
  rewrite imap_search_out. cbn [now tick st evs]. rewrite Hs, bind_get_self.
  rewrite prepend_prepend. reflexivity.
Qed.

Lemma idle_wait_out n w s :
  running (self s) = true ->
  idle_wait n w s = mkOut (Ok tt) s (repeat (Sleep 1) n).
Proof.
  intros Hrun. induction n as [|n IH]; [reflexivity|].
  cbn [idle_wait repeat]. rewrite bind_get_self, Hrun. cbn [negb].
  rewrite (bind_ok (sleep 1) _ w s tt eq_refl). cbn [sleep emit st evs].
  rewrite IH. reflexivity.
Qed.

Lemma nothing_new all_messages last :
  Forall (fun u => (u <= last)%N) all_messages ->
  new_messages all_messages last = [].
Proof.
  induction 1 as [|u l Hu _ IH]; [reflexivity|].
  cbn. destruct (N.ltb_spec last u); [lia | exact IH].
Qed.

(** X14. A cycle in which the keep-alive and the search succeed and the
    mailbox holds no identifier above the cursor fetches nothing, hands
    off nothing and reports nothing: it prints one line and waits 30 times
    one second, and the monitor and the processed count are as before. *)
Theorem cycle_with_nothing_new
    (w : World) (s : State) (c : session) (all_messages : list uid) :
  running (self s) = true ->
  client (self s) = Some c ->
  w_noop w (now s) = None ->
  w_search w (S (now s)) = inr all_messages ->
  Forall (fun u => (u <= last_uid (self s))%N) all_messages ->
  cycle w s
  = mkOut (Ok tt) (tick (tick s))
      (ImapNoop None :: ImapSearch (inr all_messages)
       :: Print "No new emails found" :: repeat (Sleep 1) 30).
Proof.
  intros Hrun Hc Hn Hs Hold. unfold cycle. apply try_except_returns.
  rewrite (poll_ok_out w s c all_messages Hc Hn Hs), (nothing_new _ _ Hold).
  rewrite (bind_ok (print _) _ w _ tt eq_refl). cbn [print emit st evs].
  rewrite idle_wait_out by exact Hrun. reflexivity.
Qed.

Lemma cycle_with_nothing_new_witness :
  cycle calm (mkState (mkMonitor true (Some 0) 11%N) 0 0)
  = mkOut (Ok tt) (mkState (mkMonitor true (Some 0) 11%N) 0 2)
      (ImapNoop None :: ImapSearch (inr [10%N; 11%N])
       :: Print "No new emails found" :: repeat (Sleep 1) 30).
Proof.
  apply (cycle_with_nothing_new calm (mkState (mkMonitor true (Some 0) 11%N) 0 0)
           0 [10%N; 11%N] eq_refl eq_refl eq_refl eq_refl).
  repeat constructor; vm_compute; discriminate.
Defined.

(** ** The order of a batch *)

Lemma insert_sorted_hd (u v : uid) (l : list uid) :
  (v <= u)%N -> HdRel N.le v l -> HdRel N.le v (insert_sorted u l).
Proof.
  intros Hvu Hl. destruct l as [|x l]; cbn; [now constructor|].
  destruct (u <=? x)%N; constructor; auto. now inversion Hl.
Qed.

Lemma insert_sorted_ascending (u : uid) (l : list uid) :
  Sorted N.le l -> Sorted N.le (insert_sorted u l).
Proof.
  induction 1 as [|x l Hl IH Hx]; cbn; [repeat constructor|].
  destruct (N.leb_spec u x) as [Hux|Hux].
  - constructor; [now constructor | now constructor].
  - constructor; [exact IH|]. apply insert_sorted_hd; [lia | exact Hx].
Qed.

Lemma sorted_ascending (l : list uid) : Sorted N.le (sorted l).
Proof.
  induction l as [|u l IH]; cbn; [constructor|].
  now apply insert_sorted_ascending.
Qed.

Lemma process_uid_unfetched_out u w s c :
  client (self s) = Some c ->
  (forall msg, w_fetch w (now s) u <> FetchBytes msg) ->
  process_uid u w s
  = mkOut (Ok Next) (tick s)
      [ImapFetch u (w_fetch w (now s) u);
       Print (match w_fetch w (now s) u with
              | FetchRaises _ => "Error processing email UID"
              | _ => "Invalid email data type"
              end)].
Proof.
  intros Hc Hf. unfold process_uid.
  destruct (w_fetch w (now s) u) as [e| |msg] eqn:Hw;
    [ | | now destruct (Hf msg)].
  - erewrite try_except_raised
      with (e := e) (s1 := tick s) (l := [ImapFetch u (FetchRaises e)]);
      [reflexivity|].
    rewrite bind_get_self, Hc.
    rewrite (bind_raised (imap_fetch u) _ w s (Exception e))
      by (rewrite imap_fetch_out, Hw; reflexivity).
    rewrite imap_fetch_out, Hw. reflexivity.
  - apply try_except_returns.
    rewrite bind_get_self, Hc.
    rewrite (bind_ok (imap_fetch u) _ w s None)
      by (rewrite imap_fetch_out, Hw; reflexivity).
    rewrite imap_fetch_out, Hw. reflexivity.
Qed.

(** With a session, every identifier is fetched and the loop goes on. *)
Lemma process_uid_with_session u w s c :
  client (self s) = Some c ->
  res (process_uid u w s) = Ok Next
  /\ fetched (evs (process_uid u w s)) = [u]
  /\ running (self (st (process_uid u w s))) = running (self s)
  /\ client (self (st (process_uid u w s))) = Some c.
Proof.
  intros Hc. destruct (w_fetch w (now s) u) as [e| |msg] eqn:Hw.
  - rewrite (process_uid_unfetched_out u w s c Hc) by (rewrite Hw; discriminate).
    rewrite Hw. cbn. auto.
  - rewrite (process_uid_unfetched_out u w s c Hc) by (rewrite Hw; discriminate).
    rewrite Hw. cbn. auto.
  - destruct (process_uid_fetched u msg w s c Hc Hw) as [Hr Hs].
    destruct (process_new_email_yields u msg w (tick s)) as [ok [Hok _]].
    destruct (process_uid_fetched_out u msg w s c ok Hc Hw Hok) as (_ & _ & Hev).
    rewrite Hr, Hs, Hev. cbn [fetched running client].
    rewrite fetched_app, (fetched_none _ (process_new_email_events u msg w (tick s))).
    rewrite count_out. destruct ok; cbn; auto.
Qed.

Lemma for_uids_with_session uids :
  forall w s c,
  running (self s) = true -> client (self s) = Some c ->
  res (for_uids uids w s) = Ok tt
  /\ fetched (evs (for_uids uids w s)) = uids
  /\ running (self (st (for_uids uids w s))) = true.
Proof.
  induction uids as [|u rest IH]; intros w s c Hrun Hc; [cbn; auto|].
  cbn [for_uids]. rewrite bind_get_self, Hrun. cbn [negb].
  destruct (process_uid_with_session u w s c Hc) as (Hr & Hf & Hrun' & Hc').
  rewrite (bind_ok (process_uid u) _ w s Next Hr).
  rewrite Hrun in Hrun'.
  destruct (IH w (st (process_uid u w s)) c Hrun' Hc') as (Hr2 & Hf2 & Hrun2).
  unfold prepend. cbn [res st evs]. rewrite fetched_app, Hf, Hf2. auto.
Qed.

(** X15. In a cycle of a running monitor whose keep-alive and search
    succeed, every identifier above the cursor is fetched, once for each
    time the search lists it, and in ascending order; no other identifier
    is fetched. *)
Theorem batch_fetched_in_ascending_order
    (w : World) (s : State) (c : session) (all_messages : list uid) :
  running (self s) = true ->
  client (self s) = Some c ->
  w_noop w (now s) = None ->
  w_search w (S (now s)) = inr all_messages ->
  let o := cycle w s in
  res o = Ok tt
  /\ fetched (evs o) = sorted (new_messages all_messages (last_uid (self s)))
  /\ Sorted N.le (fetched (evs o))
  /\ (forall u, In u (fetched (evs o)) <->
                In u all_messages /\ (last_uid (self s) < u)%N).
Proof.
  intros Hrun Hc Hn Hs. cbv zeta.
  assert (H : res (cycle w s) = Ok tt
              /\ fetched (evs (cycle w s))
                 = sorted (new_messages all_messages (last_uid (self s)))).
  { unfold cycle.
    destruct (new_messages all_messages (last_uid (self s))) as [|u l] eqn:Hnew.
    - rewrite (try_except_returns poll _ w s (tick (tick s))
                 (ImapNoop None :: ImapSearch (inr all_messages)
                  :: Print "No new emails found" :: repeat (Sleep 1) 30) tt).
      + split; reflexivity.
      + rewrite (poll_ok_out w s c all_messages Hc Hn Hs), Hnew.
        rewrite (bind_ok (print _) _ w _ tt eq_refl). cbn [print emit st evs].
        rewrite idle_wait_out by exact Hrun. reflexivity.
    - destruct (for_uids_with_session (sorted (u :: l)) w (tick (tick s)) c Hrun Hc)
        as (Hr & Hf & Hrun').
      rewrite (try_except_returns poll _ w s
                 (st (for_uids (sorted (u :: l)) w (tick (tick s))))
                 (ImapNoop None :: ImapSearch (inr all_messages)
                  :: evs (for_uids (sorted (u :: l)) w (tick (tick s)))
                  ++ repeat (Sleep 1) 30) tt).
      + cbn [res evs fetched]. rewrite fetched_app, Hf.
        split; [reflexivity|]. cbn. now rewrite app_nil_r.
      + rewrite (poll_ok_out w s c all_messages Hc Hn Hs), Hnew.
        rewrite (bind_ok (for_uids _) _ w _ tt Hr).
        rewrite idle_wait_out by exact Hrun'. reflexivity. }
  destruct H as [Hr Hf]. rewrite Hf.
  split; [exact Hr|]. split; [reflexivity|].
  split; [apply sorted_ascending|].
  intros u. rewrite sorted_In. apply new_messages_In.
Qed.

Lemma batch_fetched_in_ascending_order_witness :
  fetched (evs (cycle scenario (mkState (mkMonitor true (Some 0) 10%N) 0 6)))
  = [11%N; 12%N].
Proof.
  exact (proj1 (proj2
    (batch_fetched_in_ascending_order scenario
       (mkState (mkMonitor true (Some 0) 10%N) 0 6) 0 [12%N; 10%N; 11%N]
       eq_refl eq_refl eq_refl eq_refl))).
Defined.

(** ** Where files are written *)

Lemma save_block_writes (path : string) (payload : bytes) (safe : string)
    (changed : bool) (attachments : list string) (w : World) (s : State) :
  forall path' payload' r,
    In (FileWrite path' payload' r)
       (evs (try_except
               (write_file path payload ;;
                print "Saved attachment" ;;
                when changed (print "(sanitized)") ;;
                ret (attachments ++ [safe])%list)
               is_Exception
               (fun _ => print "Error saving attachment" ;; ret attachments) w s)) ->
    path' = path /\ payload' = payload.
Proof.
  intros path' payload' r.
  destruct (w_write w (now s)) as [e|] eqn:Hw; run; rewrite Hw; run.
  - intros [H|[H|[]]]; [now inversion H | discriminate].
  - destruct changed; run; intros H;
      repeat (destruct H as [H|H]; [try discriminate; now inversion H|]);
      destruct H.
Qed.

(** The writes of one part. *)
Lemma attachment_step_writes part attachments w s :
  forall path payload r,
    In (FileWrite path payload r) (evs (attachment_step part attachments w s)) ->
    exists filename,
      part_filename part = Some filename
      /\ part_payload part = Some payload
      /\ path = ATTACHMENTS_DIR ++ "/" ++ sanitize filename
      /\ str_in (file_ext_of (sanitize filename)) allowed_extensions = true
      /\ (Z.of_nat (List.length payload) <= size_limit)%Z.
Proof.
  intros path payload r. unfold attachment_step.
  destruct (part_filename part) as [filename|]; [|intros []].
  destruct (Str.truthy filename); cbn [negb]; [|intros []].
  destruct (str_in (file_ext_of (sanitize filename)) allowed_extensions)
    eqn:Hext; cbn [negb].
  - rewrite (allowed_ext_keeps_name _ Hext).
    destruct (part_payload part) as [payload0|];
      [|cbn; intros []].
    destruct (Z.ltb_spec size_limit (Z.of_nat (List.length payload0))) as [Hbig|Hok].
    + cbn. intros [H|[]]. discriminate.
    + intros Hin. apply save_block_writes in Hin as [-> ->].
      exists filename. repeat split; auto.
  - cbn. intros [H|[]]. discriminate.
Qed.

Lemma attachment_loop_writes parts :
  forall attachments w s path payload r,
    In (FileWrite path payload r) (evs (attachment_loop parts attachments w s)) ->
    exists part filename,
      In part parts
      /\ part_filename part = Some filename
      /\ part_payload part = Some payload
      /\ path = ATTACHMENTS_DIR ++ "/" ++ sanitize filename
      /\ str_in (file_ext_of (sanitize filename)) allowed_extensions = true
      /\ (Z.of_nat (List.length payload) <= size_limit)%Z.
Proof.
  induction parts as [|part rest IH]; intros attachments w s path payload r;
    [intros []|].
  cbn [attachment_loop].
  assert (Hstep : In (FileWrite path payload r)
                     (evs (attachment_step part attachments w s)) ->
                  exists part0 filename,
                    In part0 (part :: rest)
                    /\ part_filename part0 = Some filename
                    /\ part_payload part0 = Some payload
                    /\ path = ATTACHMENTS_DIR ++ "/" ++ sanitize filename
                    /\ str_in (file_ext_of (sanitize filename)) allowed_extensions = true
                    /\ (Z.of_nat (List.length payload) <= size_limit)%Z).
  { intros Hin. apply attachment_step_writes in Hin as (f & H).
    exists part, f. split; [now left | exact H]. }
  destruct (res (attachment_step part attachments w s)) as [a|x|] eqn:Hres.
  - rewrite (bind_ok _ _ w s a Hres). unfold prepend; cbn [evs].
    intros Hin. apply in_app_or in Hin as [Hin|Hin]; [now apply Hstep|].
    apply IH in Hin as (p & f & Hp & H). exists p, f. split; [now right | exact H].
  - rewrite (bind_raised _ _ w s x Hres). cbn [evs]. exact Hstep.
  - unfold bind. rewrite Hres. cbn [evs]. exact Hstep.
Qed.

(** X16. Every file write that processing a message attempts, whether it
    succeeds or not and whether or not the message is handed off in the
    end, goes to the attachment directory under the sanitised name of a
    part of the message, with that part's payload, an allowed extension
    and at most 100 MiB; the path below the directory holds no separator.
    A message that is not multipart causes no write. *)
Theorem writes_stay_in_attachment_dir
    (u : uid) (msg : Message) (w : World) (s : State)
    (path : string) (payload : bytes) (r : option error) :
  In (FileWrite path payload r) (evs (process_new_email u msg w s)) ->
  is_multipart msg = true
  /\ exists part filename,
       In part (walk msg)
       /\ part_filename part = Some filename
       /\ part_payload part = Some payload
       /\ path = ATTACHMENTS_DIR ++ "/" ++ sanitize filename
       /\ (forall a b, sanitize filename <> a ++ String Str.slash b)
       /\ str_in (file_ext_of (sanitize filename)) allowed_extensions = true
       /\ (Z.of_nat (List.length payload) <= size_limit)%Z.
Proof.
  intros Hin.
  assert (Ha : In (FileWrite path payload r) (evs (attachments_of msg w s))).
  { destruct (process_new_email_cases u msg w s)
      as [(a & _ & Heq)|(e & _ & Heq)]; rewrite Heq in Hin; cbn [evs] in Hin;
      apply in_app_or in Hin as [Hin|Hin]; auto.
    - rewrite save_email_to_api_out in Hin. cbn [evs app] in Hin.
      destruct (handoff_ok (w_post w (now (st (attachments_of msg w s)))));
        cbn in Hin;
        repeat (destruct Hin as [Hin|Hin]; [discriminate|]); destruct Hin.
    - destruct Hin as [Hin|[]]. discriminate. }
  unfold attachments_of in Ha. destruct (is_multipart msg); [|destruct Ha].
  split; [reflexivity|].
  apply attachment_loop_writes in Ha as (p & f & Hp & Hf & Hpl & Hpath & Hext & Hsz).
  exists p, f. repeat split; auto.
  intros a b H. pose proof (sanitize_no_slash f) as Hs.
  rewrite H, existsb_app in Hs. simpl in Hs. now rewrite orb_true_r in Hs.
Qed.

Lemma writes_stay_in_attachment_dir_witness :
  exists part filename,
    In part (walk report_message)
    /\ part_filename part = Some filename
    /\ "data/email-attachments/log.las"
       = ATTACHMENTS_DIR ++ "/" ++ sanitize filename.
Proof.
  destruct (writes_stay_in_attachment_dir 11%N report_message calm initial_state
              "data/email-attachments/log.las" [Byte.x00] None)
    as (_ & part & filename & Hp & Hf & _ & Hpath & _).
  - vm_compute. tauto.
  - exists part, filename. auto.
Defined.

(** ** Stopping *)

Lemma stop_out w s :
  stop w s
  = if running (self s)
    then
      let s1 := mkState (mkMonitor false (client (self s)) (last_uid (self s)))
                  (emails_processed s) (now s) in
      mkOut (Ok tt) (tick (tick s1))
        [Print "Stopping email monitor...";
         HttpPut (status_data false None None (w_clock w (now s)))
           (w_put w (S (now s)));
         Print (status_line (w_put w (S (now s))))]
    else mkOut (Ok tt) s [Print "Monitor is not running"].
Proof.
  unfold stop. rewrite bind_get_self.
  destruct (running (self s)); cbn [negb]; [|reflexivity].
  rewrite (bind_ok (print _) _ w s tt eq_refl).
  rewrite (bind_ok (set_running false) _ w _ tt eq_refl).
  tidy. rewrite update_status_out. reflexivity.
Qed.

(** X17. [stop] always returns with the running flag cleared and never
    touches the IMAP session or the cursor: an open session stays open and
    no logout is sent.  It reports [isRunning=false] once when the monitor
    was running and sends nothing otherwise. *)
Theorem stop_keeps_session (w : World) (s : State) :
  let o := stop w s in
  res o = Ok tt
  /\ running (self (st o)) = false
  /\ client (self (st o)) = client (self s)
  /\ last_uid (self (st o)) = last_uid (self s)
  /\ Forall (fun e => is_print e \/ is_put e) (evs o)
  /\ reported (evs o)
     = if running (self s)
       then [status_data false None None (w_clock w (now s))]
       else [].
Proof.
  cbv zeta. rewrite stop_out.
  destruct (running (self s)) eqn:Hrun; cbn [res st evs self tick running client
    last_uid reported]; repeat split; auto.
  - repeat (apply Forall_cons; [cbn; tauto|]). constructor.
  - repeat (apply Forall_cons; [cbn; tauto|]). constructor.
Qed.

(** X18. The signal handler always ends the process with exit status 0,
    with the running flag cleared.  It sends at most the one status report
    of [stop] and never logs out of the IMAP session, which it leaves as it
    was. *)
Theorem signal_handler_exits_zero (signum : nat) (w : World) (s : State) :
  let o := signal_handler signum w s in
  res o = Raised (SystemExit 0)
  /\ running (self (st o)) = false
  /\ client (self (st o)) = client (self s)
  /\ Forall (fun e => is_print e \/ is_put e) (evs o)
  /\ (List.length (reported (evs o)) <= 1)%nat.
Proof.
  cbv zeta. unfold signal_handler.
  rewrite (bind_ok (print _) _ w s tt eq_refl). cbn [print emit st evs].
  rewrite (bind_ok stop _ w s tt) by (rewrite stop_out; now destruct (running (self s))).
  rewrite stop_out.
  destruct (running (self s)) eqn:Hrun; unfold prepend, sys_exit, raise;
    cbn [res st evs self tick running client last_uid reported app length];
    repeat split; auto.
  - repeat (apply Forall_cons; [cbn; tauto|]). constructor.
  - repeat (apply Forall_cons; [cbn; tauto|]). constructor.
Qed.

(** ** The command line *)

Lemma start_res fuel w s :
  running (self s) = false ->
  let o := start fuel w s in
  (res o = Ok tt \/ res o = Fuel)
  /\ (res o = Ok tt -> running (self (st o)) = false).
Proof.
  intros Hrun. cbv zeta. rewrite (start_out fuel w s Hrun).
  unfold prepend. cbn [res st].
  destruct (connects w (S (S (now s)))).
  - match goal with
    | |- context [monitored fuel w ?x] =>
        destruct (monitored_returns fuel w x) as [H1 H2]
    end.
    split; [exact H1|]. intros Hok. now apply H2.
  - cbn. auto.
Qed.

(** X19. [main] ends the process with exit status 1, having made no call to
    the outside and printed only, exactly when its arguments are not one
    program name followed by [start] or [stop], or a credential is missing.
    Otherwise it never raises, and when it returns the monitor it built is
    not running. *)
Theorem main_exit_status
    (argv : list string) (cfg : Config) (fuel : nat) (w : World) (s : State) :
  let o := main argv cfg fuel w s in
  let launched :=
    exists prog command,
      argv = [prog; command]
      /\ (command = "start" \/ command = "stop")
      /\ opt_truthy (EMAIL_USER cfg) = true
      /\ opt_truthy (EMAIL_PASSWORD cfg) = true in
  (launched ->
   (res o = Ok tt \/ res o = Fuel)
   /\ (res o = Ok tt -> running (self (st o)) = false))
  /\ (~ launched ->
      res o = Raised (SystemExit 1)
      /\ Forall is_print (evs o)
      /\ now (st o) = now s).
Proof.
  cbv zeta.
  assert (Husage : res (usage w s) = Raised (SystemExit 1)
                   /\ Forall is_print (evs (usage w s))
                   /\ now (st (usage w s)) = now s).
  { cbn. repeat split. repeat constructor. }
  destruct argv as [|prog [|command [|extra rest]]];
    try (split; [intros (p & c & Heq & _); discriminate | intros _; exact Husage]).
  cbn [main].
  destruct (str_in command ["start"; "stop"]) eqn:Hin; cbn [negb].
  2:{ split; [|intros _; exact Husage].
      intros (p & c & Heq & [Hc|Hc] & _); inversion Heq; subst;
        cbn in Hin; discriminate. }
  assert (Hcmd : command = "start" \/ command = "stop").
  { unfold str_in in Hin. cbn [existsb] in Hin.
    rewrite orb_false_r in Hin. apply orb_true_iff in Hin.
    destruct Hin as [H|H]; apply String.eqb_eq in H; auto. }
  unfold EmailMonitor.
  destruct (opt_truthy (EMAIL_USER cfg)) eqn:Hu;
    destruct (opt_truthy (EMAIL_PASSWORD cfg)) eqn:Hp; cbn [negb orb].
  - split; [intros _ | intros Hn; exfalso; apply Hn; exists prog, command; auto].
    rewrite (bind_ok (bind (set_self _) (fun _ => ret tt)) _ w s tt eq_refl).
    unfold prepend. cbn [res st evs bind set_self ret app].
    destruct Hcmd as [->| ->]; cbn [String.eqb Ascii.eqb Bool.eqb].
    + apply start_res. reflexivity.
    + rewrite stop_out. cbn. auto.
  - split; [intros (p & c & _ & _ & _ & H); discriminate|]. intros _.
    cbn. repeat split. repeat constructor.
  - split; [intros (p & c & _ & _ & H & _); discriminate|]. intros _.
    cbn. repeat split. repeat constructor.
  - split; [intros (p & c & _ & _ & H & _); discriminate|]. intros _.
    cbn. repeat split. repeat constructor.
Qed.

Lemma main_exit_status_witness :
  res (main ["email_monitor.py"; "restart"] (mkConfig (Some "u") (Some "p")) 3
         calm initial_state) = Raised (SystemExit 1)
  /\ (res (main ["email_monitor.py"; "stop"] (mkConfig (Some "u") (Some "p")) 3
             calm initial_state) = Ok tt
      \/ res (main ["email_monitor.py"; "stop"] (mkConfig (Some "u") (Some "p")) 3
                calm initial_state) = Fuel).
Proof.
  split.
  - apply (main_exit_status ["email_monitor.py"; "restart"]
             (mkConfig (Some "u") (Some "p")) 3 calm initial_state).
    intros (p & c & Heq & [Hc|Hc] & _); inversion Heq; subst; discriminate.
  - apply (main_exit_status ["email_monitor.py"; "stop"]
             (mkConfig (Some "u") (Some "p")) 3 calm initial_state).
    exists "email_monitor.py", "stop". repeat split; auto.
Defined.

(** ** The body of a record *)

Lemma first_plain_text_first (parts : list Part) :
  (exists before part after t,
     parts = (before ++ part :: after)%list
     /\ content_type part = "text/plain"
     /\ opt_truthy (part_filename part) = false
     /\ part_text part = Some t
     /\ first_plain_text parts = t
     /\ Forall (fun q => content_type q = "text/plain" ->
                         opt_truthy (part_filename q) = false ->
                         part_text q = None) before)
  \/ (first_plain_text parts = EmptyString
      /\ Forall (fun q => content_type q = "text/plain" ->
                          opt_truthy (part_filename q) = false ->
                          part_text q = None) parts).
Proof.
  induction parts as [|p rest IH]; [right; split; [reflexivity | constructor]|].
  cbn [first_plain_text].
  assert (Hskip :
    (content_type p = "text/plain" -> opt_truthy (part_filename p) = false ->
     part_text p = None) ->
    (exists before part after t,
       p :: rest = (before ++ part :: after)%list
       /\ content_type part = "text/plain"
       /\ opt_truthy (part_filename part) = false
       /\ part_text part = Some t
       /\ first_plain_text rest = t
       /\ Forall (fun q => content_type q = "text/plain" ->
                           opt_truthy (part_filename q) = false ->
                           part_text q = None) before)
    \/ (first_plain_text rest = EmptyString
        /\ Forall (fun q => content_type q = "text/plain" ->
                            opt_truthy (part_filename q) = false ->
                            part_text q = None) (p :: rest))).
  { intros Hp.
    destruct IH as [(before & part & after & t & -> & H1 & H2 & H3 & H4 & H5)|[H1 H2]].
    - left. exists (p :: before), part, after, t. repeat split; auto.
    - right. split; auto. }
  destruct (String.eqb_spec (content_type p) "text/plain") as [Hct|Hct];
    cbn [andb]; [|apply Hskip; intros H; now destruct Hct].
  destruct (opt_truthy (part_filename p)) eqn:Hfn; cbn [negb];
    [apply Hskip; intros _ H; discriminate|].
  destruct (part_text p) as [t|] eqn:Ht; [|apply Hskip; auto].
  left. exists [], p, rest, t. repeat split; auto.
Qed.

(** X20. The body of a multipart message is the text of its first part, in
    walk order, that has content type text/plain, no file name and a
    payload that decodes, and it is empty when there is no such part: the
    text of a named part (an attachment) is never taken as the body, and a
    part that fails to decode is passed over rather than ending the
    search.  Every record handed to the API sink carries that body,
    stripped. *)
Theorem body_is_first_unnamed_text_part
    (u : uid) (msg : Message) (w : World) (s : State) :
  is_multipart msg = true ->
  ((exists before part after,
      walk msg = (before ++ part :: after)%list
      /\ content_type part = "text/plain"
      /\ opt_truthy (part_filename part) = false
      /\ part_text part = Some (extract_body msg)
      /\ Forall (fun q => content_type q = "text/plain" ->
                          opt_truthy (part_filename q) = false ->
                          part_text q = None) before)
   \/ (extract_body msg = EmptyString
       /\ Forall (fun q => content_type q = "text/plain" ->
                           opt_truthy (part_filename q) = false ->
                           part_text q = None) (walk msg)))
  /\ (forall entry r,
        In (entry, r) (posted (evs (process_new_email u msg w s))) ->
        e_body entry = Str.strip (extract_body msg)).
Proof.
  intros Hm. split.
  - unfold extract_body. rewrite Hm.
    destruct (first_plain_text_first (walk msg))
      as [(before & part & after & t & Hw & H1 & H2 & H3 & H4 & H5)|H]; [|now right].
    left. exists before, part, after. rewrite H4. repeat split; auto.
  - intros entry r Hin.
    destruct (process_new_email_posted u msg w s)
      as [(a & _ & _ & Hp & _)|(e & _ & _ & Hp & _)]; rewrite Hp in Hin.
    + destruct Hin as [Heq|[]]. injection Heq as <- _. reflexivity.
    + destruct Hin.
Qed.

Lemma body_is_first_unnamed_text_part_witness :
  "please find the log attached" = Str.strip (extract_body report_message).
Proof.
  apply (proj2 (body_is_first_unnamed_text_part 11%N report_message calm
                  initial_state eq_refl)
           (mkEntry "11" "rig@example.org" "Log" "please find the log attached"
              ["log.las"] "pending") (Response 201)).
  vm_compute. left. reflexivity.
Defined.

(** * Errors of a cycle and the session *)

Lemma Forall_repeat {A} (P : A -> Prop) (x : A) (n : nat) :
  P x -> Forall P (repeat x n).
Proof. intros H. induction n; cbn; constructor; auto. Qed.

(** With a session, the turn of the loop for one identifier neither
    disconnects nor reconnects, whatever the fetch and the hand-off do. *)
Lemma process_uid_no_reconnect u w s c :
  client (self s) = Some c ->
  Forall no_reconnect_ev (evs (process_uid u w s)).
Proof.
  intros Hc. destruct (w_fetch w (now s) u) as [e| |msg] eqn:Hw.
  - rewrite (process_uid_unfetched_out u w s c Hc) by (rewrite Hw; discriminate).
    cbn [evs]. repeat (apply Forall_cons; [exact Logic.I|]). apply Forall_nil.
  - rewrite (process_uid_unfetched_out u w s c Hc) by (rewrite Hw; discriminate).
    cbn [evs]. repeat (apply Forall_cons; [exact Logic.I|]). apply Forall_nil.
  - destruct (process_new_email_yields u msg w (tick s)) as [ok [Hok _]].
    destruct (process_uid_fetched_out u msg w s c ok Hc Hw Hok) as (_ & _ & Hev).
    rewrite Hev. apply Forall_cons; [exact Logic.I|]. apply Forall_app. split.
    + eapply Forall_impl; [|apply process_new_email_events].
      intros ev [H|[H|H]]; destruct ev; try exact Logic.I; destruct H.
    + rewrite count_out. destruct ok; cbn [evs];
        repeat (apply Forall_cons; [exact Logic.I|]); apply Forall_nil.
Qed.

Lemma for_uids_no_reconnect uids :
  forall w s c,
  running (self s) = true -> client (self s) = Some c ->
  res (for_uids uids w s) = Ok tt
  /\ Forall no_reconnect_ev (evs (for_uids uids w s))
  /\ running (self (st (for_uids uids w s))) = true
  /\ client (self (st (for_uids uids w s))) = Some c.
Proof.
  induction uids as [|u rest IH]; intros w s c Hrun Hc; [cbn; auto|].
  cbn [for_uids]. rewrite bind_get_self, Hrun. cbn [negb].
  destruct (process_uid_with_session u w s c Hc) as (Hr & _ & Hrun' & Hc').
  rewrite (bind_ok (process_uid u) _ w s Next Hr).
  rewrite Hrun in Hrun'.
  destruct (IH w (st (process_uid u w s)) c Hrun' Hc') as (Hr2 & Hf2 & Hrun2 & Hc2).
  unfold prepend. cbn [res st evs]. repeat split; auto.
  apply Forall_app. split; [|exact Hf2].
  now apply (process_uid_no_reconnect u w s c).
Qed.

(** A cycle whose keep-alive and search succeed neither disconnects nor
    reconnects and keeps its session, whatever the fetches and the
    hand-offs of its batch do. *)
Lemma cycle_no_reconnect w s c all_messages :
  running (self s) = true ->
  client (self s) = Some c ->
  w_noop w (now s) = None ->
  w_search w (S (now s)) = inr all_messages ->
  Forall no_reconnect_ev (evs (cycle w s))
  /\ client (self (st (cycle w s))) = Some c.
Proof.
  intros Hrun Hc Hn Hs. unfold cycle.
  destruct (new_messages all_messages (last_uid (self s))) as [|u l] eqn:Hnew.
  - rewrite (try_except_returns poll _ w s (tick (tick s))
               (ImapNoop None :: ImapSearch (inr all_messages)
                :: Print "No new emails found" :: repeat (Sleep 1) 30) tt).
    + cbn [evs st tick self]. split; [|exact Hc].
      repeat (apply Forall_cons; [exact Logic.I|]).
      apply Forall_repeat. reflexivity.
    + rewrite (poll_ok_out w s c all_messages Hc Hn Hs), Hnew.
      rewrite (bind_ok (print _) _ w _ tt eq_refl). cbn [print emit st evs].
      rewrite idle_wait_out by exact Hrun. reflexivity.
  - destruct (for_uids_no_reconnect (sorted (u :: l)) w (tick (tick s)) c Hrun Hc)
      as (Hr & Hf & Hrun' & Hc').
    rewrite (try_except_returns poll _ w s
               (st (for_uids (sorted (u :: l)) w (tick (tick s))))
               (ImapNoop None :: ImapSearch (inr all_messages)
                :: evs (for_uids (sorted (u :: l)) w (tick (tick s)))
                ++ repeat (Sleep 1) 30) tt).
    + cbn [evs st]. split; [|exact Hc'].
      repeat (apply Forall_cons; [exact Logic.I|]).
      apply Forall_app. split; [exact Hf|]. apply Forall_repeat. reflexivity.
    + rewrite (poll_ok_out w s c all_messages Hc Hn Hs), Hnew.
      rewrite (bind_ok (for_uids _) _ w _ tt Hr).
      rewrite idle_wait_out by exact Hrun'. reflexivity.
Qed.

(** C7, as the code has it.  No error of a cycle ends the loop: every
    cycle returns with the running flag as it was, and the loop takes its
    next turn.  A transient error raised by the keep-alive or the search
    makes the monitor log out and drop its session, wait 5 seconds and
    connect again, and wait 10 seconds more when that fails.  An error
    raised while a message is fetched, transient or not, is taken by the
    handler of line 277: the turn for that identifier makes the fetch and
    prints one line, and the loop over the batch goes on, with the
    monitor as it was.  So a cycle whose keep-alive and search succeed never logs
    out, opens no connection, waits for nothing but its idle seconds and
    keeps its session, whatever its fetches raise. *)
Theorem transient_error_reconnects (w : World) (s : State) :
  (res (cycle w s) = Ok tt
   /\ running (self (st (cycle w s))) = running (self s)
   /\ (running (self s) = true ->
       forall fuel,
         monitor_loop (S fuel) w s
         = prepend (evs (cycle w s)) (monitor_loop fuel w (st (cycle w s)))))
  /\ (forall c e,
        client (self s) = Some c ->
        is_transient (err_class e) = true ->
        poll_fails w s e ->
        exists pre s2 r ok rest,
          failed_poll e pre
          /\ self s2 = mkMonitor (running (self s)) None (last_uid (self s))
          /\ res (connect w s2) = Ok ok
          /\ evs (connect w s2) = ImapOpen (w_open w (now s2)) :: rest
          /\ evs (cycle w s)
             = (pre ++ [Print "Transient IMAP/SSL error - reconnecting";
                        ImapLogout r;
                        Print (logout_line r);
                        Sleep 5]
                    ++ evs (connect w s2)
                    ++ (if ok then [] else [Sleep 10]))%list
          /\ st (cycle w s) = st (connect w s2))
  /\ (forall c u e,
        client (self s) = Some c ->
        w_fetch w (now s) u = FetchRaises e ->
        process_uid u w s
        = mkOut (Ok Next) (tick s)
            [ImapFetch u (FetchRaises e); Print "Error processing email UID"])
  /\ (forall c all_messages,
        running (self s) = true ->
        client (self s) = Some c ->
        w_noop w (now s) = None ->
        w_search w (S (now s)) = inr all_messages ->
        Forall no_reconnect_ev (evs (cycle w s))
        /\ client (self (st (cycle w s))) = Some c).
Proof.
  split; [|split; [|split]].
  - destruct (cycle_total w s) as [Hr Hs]. repeat split; auto.
    intros Hrun fuel. now apply monitor_loop_next.
  - intros c e Hc Ht Hfail.
    destruct (poll_raises w s c e Hc Hfail) as (pre & s1 & Hpoll & Hs1 & Hpre).
    assert (Hcycle : cycle w s = prepend pre (on_transient w s1)).
    { unfold cycle. rewrite (try_except_raised _ _ w s s1 pre e Hpoll).
      now rewrite Ht. }
    assert (Hc1 : client (self s1) = Some c) by now rewrite Hs1.
    destruct (on_transient_out w s1 c Hc1) as (ok & Hok & Hout).
    set (s2 := mkState (mkMonitor (running (self s1)) None (last_uid (self s1)))
                 (emails_processed s1) (S (now s1))) in *.
    destruct (connect_opens w s2) as [rest Hrest].
    exists pre, s2, (w_logout w (now s1)), ok, rest.
    rewrite Hcycle, Hout. unfold prepend; cbn [st evs].
    repeat split; auto.
    unfold s2; cbn [self]. now rewrite Hs1.
  - intros c u e Hc Hf.
    rewrite (process_uid_unfetched_out u w s c Hc) by (rewrite Hf; discriminate).
    now rewrite Hf.
  - intros c all_messages. apply cycle_no_reconnect.
Qed.

Lemma transient_error_reconnects_witness :
  (exists pre s2 r ok rest,
     failed_poll (mkError TimeoutError "timed out") pre
     /\ self s2 = mkMonitor true None 10%N
     /\ res (connect timeout_noop s2) = Ok ok
     /\ evs (connect timeout_noop s2) = ImapOpen (w_open timeout_noop (now s2)) :: rest
     /\ evs (cycle timeout_noop watching)
        = (pre ++ [Print "Transient IMAP/SSL error - reconnecting";
                   ImapLogout r;
                   Print (logout_line r);
                   Sleep 5]
               ++ evs (connect timeout_noop s2)
               ++ (if ok then [] else [Sleep 10]))%list
     /\ st (cycle timeout_noop watching) = st (connect timeout_noop s2))
  /\ process_uid 11%N timeout_fetch watching
     = mkOut (Ok Next) (tick watching)
         [ImapFetch 11%N (FetchRaises (mkError TimeoutError "timed out"));
          Print "Error processing email UID"]
  /\ Forall no_reconnect_ev (evs (cycle timeout_fetch watching))
  /\ client (self (st (cycle timeout_fetch watching))) = Some 0.
Proof.
  split; [|split].
  - exact (proj1 (proj2 (transient_error_reconnects timeout_noop watching)) 0
             (mkError TimeoutError "timed out") eq_refl eq_refl
             (or_introl eq_refl)).
  - exact (proj1 (proj2 (proj2 (transient_error_reconnects timeout_fetch watching)))
             0 11%N (mkError TimeoutError "timed out") eq_refl eq_refl).
  - exact (proj2 (proj2 (proj2 (transient_error_reconnects timeout_fetch watching)))
             0 [10%N; 11%N] eq_refl eq_refl eq_refl eq_refl).
Defined.

(** C7 fails as stated: a timeout raised while message 11 is fetched is
    taken by the handler of line 277; the monitor prints a line and idles,
    with no logout, no delay of 5 seconds and no new connection, and its
    session and cursor are as they were. *)
Lemma fetch_timeout_is_not_reconnected :
  let o := cycle timeout_fetch watching in
  evs o
  = ImapNoop None
    :: ImapSearch (inr [10%N; 11%N])
    :: ImapFetch 11%N (FetchRaises (mkError TimeoutError "timed out"))
    :: Print "Error processing email UID"
    :: repeat (Sleep 1) 30
  /\ is_transient TimeoutError = true
  /\ self (st o) = self watching.
Proof.
  vm_compute. repeat split.
Qed.

(** * Attachments of a message *)











